(** * The CP voting API ([api/index.js]): a shallow embedding and its properties

    The service is an Express application over two MongoDB collections,
    [cps] and [vote_logs].  The handlers are embedded as functions in a
    state-and-exception monad over a [World] that holds the module-level
    variable [db], the contents of the two collections and the readings the
    process takes from its environment (the clock, the reachability of the
    database, the identifiers the driver generates).

    Requests are served one at a time: a handler runs to completion before
    the next one starts, so the interleavings of concurrent requests are
    outside this development.  What the handlers write to the console is
    left out. *)

From Stdlib Require Import ZArith NArith List Bool Lia.
From Stdlib.Strings Require Import String Ascii Byte.
From Stdlib Require Import Sorted Permutation Relations.
Import ListNotations.

Set Implicit Arguments.

(** ** JavaScript strings

    A JavaScript string is a sequence of UTF-16 code units.  Every string
    the service handles is decoded from UTF-8 request data or is a literal of
    the source, so it is well formed, and it is modelled by its sequence of
    code points.  [trim] and [includes] give the same result on both views
    (every character [trim] removes is a single code unit), and MongoDB's
    default string order (byte order of the UTF-8 encoding) is the
    lexicographic order of the code points. *)

Module JsString.

Definition t := list N.

(** Decoder for the literals of the source, which are written below as
    UTF-8 text. *)
Fixpoint utf8_decode (bs : list N) : t :=
  match bs with
  | [] => []
  | b0 :: r0 =>
    if (b0 <? 0x80)%N then b0 :: utf8_decode r0
    else match r0 with
    | [] => [b0]
    | b1 :: r1 =>
      if (b0 <? 0xE0)%N then
        N.lor (N.shiftl (N.land b0 0x1F) 6) (N.land b1 0x3F) :: utf8_decode r1
      else match r1 with
      | [] => [b0; b1]
      | b2 :: r2 =>
        if (b0 <? 0xF0)%N then
          N.lor (N.shiftl (N.land b0 0x0F) 12)
            (N.lor (N.shiftl (N.land b1 0x3F) 6) (N.land b2 0x3F))
          :: utf8_decode r2
        else match r2 with
        | [] => [b0; b1; b2]
        | b3 :: r3 =>
          N.lor (N.shiftl (N.land b0 0x07) 18)
            (N.lor (N.shiftl (N.land b1 0x3F) 12)
               (N.lor (N.shiftl (N.land b2 0x3F) 6) (N.land b3 0x3F)))
          :: utf8_decode r3
        end
      end
    end
  end.

Definition lit (s : string) : t :=
  utf8_decode (map N_of_ascii (list_ascii_of_string s)).

(** [a === b] *)
Fixpoint eqb (a b : t) : bool :=
  match a, b with
  | [], [] => true
  | x :: a', y :: b' => (x =? y)%N && eqb a' b'
  | _, _ => false
  end.

(** WhiteSpace and LineTerminator of ECMAScript: the characters that
    [String.prototype.trim] strips. *)
Definition is_space (c : N) : bool :=
  ((9 <=? c) && (c <=? 13)                 (* TAB LF VT FF CR *)
   || (c =? 0x20) || (c =? 0xA0) || (c =? 0x1680)
   || ((0x2000 <=? c) && (c <=? 0x200A))
   || (c =? 0x2028) || (c =? 0x2029) || (c =? 0x202F)
   || (c =? 0x205F) || (c =? 0x3000) || (c =? 0xFEFF))%N.

Fixpoint trimStart (s : t) : t :=
  match s with
  | [] => []
  | c :: r => if is_space c then trimStart r else s
  end.

Definition trimEnd (s : t) : t := rev (trimStart (rev s)).

(** [s.trim()] *)
Definition trim (s : t) : t := trimEnd (trimStart s).

Fixpoint startsWith (s p : t) : bool :=
  match p, s with
  | [], _ => true
  | _ :: _, [] => false
  | c :: p', d :: s' => (c =? d)%N && startsWith s' p'
  end.

(** [s.includes(p)] *)
Fixpoint includes (s p : t) : bool :=
  startsWith s p ||
  match s with
  | [] => false
  | _ :: s' => includes s' p
  end.

(** Truthiness of a string: only the empty string is falsy. *)
Definition truthy (s : t) : bool :=
  match s with [] => false | _ :: _ => true end.

(** Lexicographic comparison of code points. *)
Fixpoint leb (a b : t) : bool :=
  match a, b with
  | [], _ => true
  | _ :: _, [] => false
  | x :: a', y :: b' => (x <? y)%N || ((x =? y)%N && leb a' b')
  end.

End JsString.

Abbreviation jsstring := JsString.t.

(** ** [Buffer.prototype.toString('base64')] *)

Definition base64_digit (n : N) : N :=
  (if n <? 26 then 65 + n
   else if n <? 52 then 97 + (n - 26)
   else if n <? 62 then 48 + (n - 52)
   else if n =? 62 then 43 else 47)%N.

Fixpoint base64 (bs : list byte) : jsstring :=
  match bs with
  | [] => []
  | a :: r0 =>
    let x := Byte.to_N a in
    match r0 with
    | [] =>
      [base64_digit (N.shiftr x 2);
       base64_digit (N.shiftl (N.land x 3) 4); 61; 61]%N
    | b :: r1 =>
      let y := Byte.to_N b in
      match r1 with
      | [] =>
        [base64_digit (N.shiftr x 2);
         base64_digit (N.lor (N.shiftl (N.land x 3) 4) (N.shiftr y 4));
         base64_digit (N.shiftl (N.land y 15) 2); 61]%N
      | c :: r2 =>
        let z := Byte.to_N c in
        base64_digit (N.shiftr x 2)
        :: base64_digit (N.lor (N.shiftl (N.land x 3) 4) (N.shiftr y 4))
        :: base64_digit (N.lor (N.shiftl (N.land y 15) 2) (N.shiftr z 6))
        :: base64_digit (N.land z 63)
        :: base64 r2
      end
    end
  end.

(** ** BSON values

    An [ObjectId] is a 12-byte value, kept here as the number its bytes spell
    (big-endian); [toHexString] is the 24-digit form in which it is sent in a
    JSON response.  A date is its number of milliseconds since the epoch. *)

Module ObjectId.

Definition t := N.

Definition eqb (a b : t) : bool := N.eqb a b.

Definition hex_digit (n : N) : N :=
  (if n <? 10 then 48 + n else 97 + (n - 10))%N.

Fixpoint hex_digits (k : nat) (n : N) (acc : jsstring) : jsstring :=
  match k with
  | O => acc
  | S k' => hex_digits k' (N.shiftr n 4) (hex_digit (N.land n 15) :: acc)
  end.

Definition toHexString (id : t) : jsstring := hex_digits 24 id [].

End ObjectId.

Definition Date := Z.

(** The documents of the collection [cps].  [votes] is stored as a BSON
    integer, which [$inc] widens when it outgrows 32 bits; it is an integer
    here. *)
Module CP.
Record t := {
  _id : ObjectId.t;
  name : jsstring;
  description : jsstring;
  imageUrl : jsstring;
  votes : Z;
  createdAt : Date;
  updatedAt : Date
}.
End CP.

(** The documents of the collection [vote_logs]. *)
Module VoteLog.
Record t := {
  _id : ObjectId.t;
  cpId : ObjectId.t;
  voterIp : jsstring;
  votedAt : Date
}.
End VoteLog.

(** ** Errors, the world and the monad of the handlers *)

(** A thrown JavaScript error.  [multer_code] is [Some code] exactly for
    the instances of [multer.MulterError]. *)
Record JsError := {
  message : jsstring;
  multer_code : option jsstring
}.

(** The value of [client.db()]: a handle on the connection it belongs to. *)
Record Db := { client : nat }.

Record World := {
  (* the process *)
  db : option Db;                   (* [let db;] *)
  (* the MongoDB deployment *)
  cps : list CP.t;
  vote_logs : list VoteLog.t;
  connections : nat;                (* connections established so far *)
  (* what the process reads from its environment *)
  outage : option JsError;          (* [Some e]: the store cannot be reached,
                                       and every call to it fails with [e] *)
  clock : nat -> Date;              (* the successive readings of the clock *)
  ticks : nat;                      (* readings taken so far *)
  oids : nat -> ObjectId.t;         (* the identifiers the driver generates *)
  oid_count : nat                   (* identifiers generated so far *)
}.

Definition set_db (d : option Db) (n : nat) (w : World) : World :=
  {| db := d; cps := cps w; vote_logs := vote_logs w; connections := n;
     outage := outage w; clock := clock w; ticks := ticks w;
     oids := oids w; oid_count := oid_count w |}.

Definition set_cps (l : list CP.t) (w : World) : World :=
  {| db := db w; cps := l; vote_logs := vote_logs w;
     connections := connections w; outage := outage w; clock := clock w;
     ticks := ticks w; oids := oids w; oid_count := oid_count w |}.

Definition set_vote_logs (l : list VoteLog.t) (w : World) : World :=
  {| db := db w; cps := cps w; vote_logs := l;
     connections := connections w; outage := outage w; clock := clock w;
     ticks := ticks w; oids := oids w; oid_count := oid_count w |}.

Definition set_ticks (n : nat) (w : World) : World :=
  {| db := db w; cps := cps w; vote_logs := vote_logs w;
     connections := connections w; outage := outage w; clock := clock w;
     ticks := n; oids := oids w; oid_count := oid_count w |}.

Definition set_oid_count (n : nat) (w : World) : World :=
  {| db := db w; cps := cps w; vote_logs := vote_logs w;
     connections := connections w; outage := outage w; clock := clock w;
     ticks := ticks w; oids := oids w; oid_count := n |}.

Inductive Outcome (A : Type) : Type :=
| Return (a : A)
| Throw (e : JsError).
Arguments Return {A} a.
Arguments Throw {A} e.

Definition M (A : Type) : Type := World -> Outcome A * World.

Definition ret {A} (a : A) : M A := fun w => (Return a, w).

Definition bind {A B} (m : M A) (k : A -> M B) : M B :=
  fun w =>
    match m w with
    | (Return a, w') => k a w'
    | (Throw e, w') => (Throw e, w')
    end.

Definition throw {A} (e : JsError) : M A := fun w => (Throw e, w).

(** [try { m } catch (error) { h error }] *)
Definition try_catch {A} (m : M A) (h : JsError -> M A) : M A :=
  fun w =>
    match m w with
    | (Return a, w') => (Return a, w')
    | (Throw e, w') => h e w'
    end.

Declare Scope js_scope.
Delimit Scope js_scope with js.
Notation "x <- m ;; k" := (bind m (fun x => k))
  (at level 100, m at next level, right associativity) : js_scope.
Notation "m ;;; k" := (bind m (fun _ => k))
  (at level 100, right associativity) : js_scope.
Open Scope js_scope.

(** [new Date()] *)
Definition new_Date : M Date :=
  fun w => (Return (clock w (ticks w)), set_ticks (S (ticks w)) w).

(** [new ObjectId()], as the driver calls it for a document without [_id]. *)
Definition new_ObjectId : M ObjectId.t :=
  fun w => (Return (oids w (oid_count w)), set_oid_count (S (oid_count w)) w).

(** A round trip to the store: it fails when the store cannot be reached.
    Whether it can is a reading of the environment that holds for the whole
    of one request; a store that is lost between two calls of one handler
    is not covered. *)
Definition mongo {A} (op : World -> A * World) : M A :=
  fun w =>
    match outage w with
    | Some e => (Throw e, w)
    | None => let (a, w') := op w in (Return a, w')
    end.

(** ** The MongoDB driver, as far as the service uses it

    The store is an external collaborator: each operation below is the
    documented behaviour of the driver call of the same name on the
    collection contents held in the [World]. *)

(** Documents before the driver gives them an [_id]. *)
Module NewCP.
Record t := {
  name : jsstring;
  description : jsstring;
  imageUrl : jsstring;
  votes : Z;
  createdAt : Date;
  updatedAt : Date
}.
(** [{ ...newCP, _id: id }] *)
Definition with_id (id : ObjectId.t) (d : t) : CP.t :=
  {| CP._id := id; CP.name := name d; CP.description := description d;
     CP.imageUrl := imageUrl d; CP.votes := votes d;
     CP.createdAt := createdAt d; CP.updatedAt := updatedAt d |}.
End NewCP.

Module NewVoteLog.
Record t := {
  cpId : ObjectId.t;
  voterIp : jsstring;
  votedAt : Date
}.
Definition with_id (id : ObjectId.t) (d : t) : VoteLog.t :=
  {| VoteLog._id := id; VoteLog.cpId := cpId d;
     VoteLog.voterIp := voterIp d; VoteLog.votedAt := votedAt d |}.
End NewVoteLog.

(** The fields the service sorts on, and a sort document [{ field: dir }]. *)
Inductive Field := f_createdAt | f_name | f_votes.
Definition SortOption : Type := Field * Z.

(** BSON order of two documents on one field. *)
Definition field_leb (f : Field) (a b : CP.t) : bool :=
  match f with
  | f_createdAt => (CP.createdAt a <=? CP.createdAt b)%Z
  | f_name => JsString.leb (CP.name a) (CP.name b)
  | f_votes => (CP.votes a <=? CP.votes b)%Z
  end.

(** The order of a sort document: direction [-1] reverses the field's. *)
Definition sort_leb (o : SortOption) (a b : CP.t) : bool :=
  if (snd o <? 0)%Z then field_leb (fst o) b a else field_leb (fst o) a b.

Fixpoint insert_sorted {A} (leb : A -> A -> bool) (x : A) (l : list A)
  : list A :=
  match l with
  | [] => [x]
  | y :: l' => if leb x y then x :: l else y :: insert_sorted leb x l'
  end.

(** [cursor.sort(o)]: the documents in the order [o] asks for (documents
    that compare equal keep their stored order). *)
Definition cursor_sort {A} (leb : A -> A -> bool) (l : list A) : list A :=
  fold_right (insert_sorted leb) [] l.

(** [updateOne]: the first document that matches is updated; the result is
    the new contents and [matchedCount]. *)
Fixpoint update_first {A} (p : A -> bool) (f : A -> A) (l : list A)
  : list A * Z :=
  match l with
  | [] => ([], 0%Z)
  | x :: r =>
    if p x then (f x :: r, 1%Z)
    else let (r', n) := update_first p f r in (x :: r', n)
  end.

(** [new MongoClient(mongoUri)] and [client.connect()]: a new connection. *)
Definition MongoClient_connect : M Db :=
  mongo (fun w =>
    ({| client := connections w |}, set_db (db w) (S (connections w)) w)).

(** [database.command({ ping: 1 })] *)
Definition command_ping : M unit := mongo (fun w => (tt, w)).

(** [collection.find().sort(o).toArray()] on [cps] *)
Definition cps_find_sort_toArray (o : SortOption) : M (list CP.t) :=
  mongo (fun w => (cursor_sort (sort_leb o) (cps w), w)).

(** [collection.insertOne(doc)] on [cps]; the result is [insertedId]. *)
Definition cps_insertOne (doc : NewCP.t) : M ObjectId.t :=
  id <- new_ObjectId ;;
  mongo (fun w => (id, set_cps (cps w ++ [NewCP.with_id id doc]) w)).

Definition cps_findOne (filter : CP.t -> bool) : M (option CP.t) :=
  mongo (fun w => (find filter (cps w), w)).

Definition cps_updateOne (filter : CP.t -> bool) (update : CP.t -> CP.t)
  : M Z :=
  mongo (fun w =>
    let (l, matchedCount) := update_first filter update (cps w) in
    (matchedCount, set_cps l w)).

Definition vote_logs_findOne (filter : VoteLog.t -> bool)
  : M (option VoteLog.t) :=
  mongo (fun w => (find filter (vote_logs w), w)).

Definition vote_logs_insertOne (doc : NewVoteLog.t) : M ObjectId.t :=
  id <- new_ObjectId ;;
  mongo (fun w =>
    (id, set_vote_logs (vote_logs w ++ [NewVoteLog.with_id id doc]) w)).

(** ** Requests and responses *)

(** A value of [req.query]: absent, a string, or an array or object. *)
Inductive QueryValue :=
| QUndefined
| QString (s : jsstring)
| QOther.

(** The file part of a multipart form, sent in the field [image]. *)
Record UploadedFile := {
  mimetype : jsstring;
  buffer : list byte
}.

Inductive Request :=
| GET_health
| GET_cps (sort : QueryValue)
| POST_cps (name description : option jsstring) (image : option UploadedFile)
| POST_cps_vote (id : jsstring) (ip x_forwarded_for : option jsstring)
| GET_cps_id (id : jsstring)
| Unmatched.

Inductive Body :=
| HealthJson (status message : jsstring) (timestamp : Date)
    (database : jsstring)
| CpsJson (cps : list CP.t)
| CpJson (cp : CP.t)
| CreatedJson (success : bool) (message : jsstring) (cpId : ObjectId.t)
    (cp : CP.t)
| VotedJson (success : bool) (message : jsstring) (newVoteCount : Z)
| ErrorJson (error : jsstring)
| EndpointsJson (error : jsstring).

Record Response := {
  status : Z;
  body : Body
}.

(** [res.status(code).json(b)] *)
Definition res_json (code : Z) (b : Body) : Response :=
  {| status := code; body := b |}.

(** Truthiness of a value that is a string or [undefined]. *)
Definition truthy_opt (a : option jsstring) : bool :=
  match a with
  | Some s => JsString.truthy s
  | None => false
  end.

(** [a || b] *)
Definition js_or (a b : option jsstring) : option jsstring :=
  if truthy_opt a then a else b.

(** [a || 'literal'] *)
Definition js_or_lit (a : option jsstring) (d : jsstring) : jsstring :=
  match a with
  | Some s => if JsString.truthy s then s else d
  | None => d
  end.

(** ** [multer({ storage, limits, fileFilter })] *)

Definition fileSize : N := 5 * 1024 * 1024.

(** The error [fileFilter] hands to its callback, if any. *)
Definition fileFilter (file : UploadedFile) : option JsError :=
  if JsString.startsWith (mimetype file) (JsString.lit "image/") then None
  else Some {| message := JsString.lit "只允许上传图片文件 (jpeg, png, gif等)";
               multer_code := None |}.

(** [upload.single('image')]: either the middleware calls [next(err)], or
    it sets [req.file] and calls [next()].  The filter sees the part's
    headers before its payload is read against the size limit.  A payload
    of more than [fileSize] bytes is refused; whether one of exactly
    [fileSize] bytes passes depends on the release of multer, and here it
    does. *)
Definition upload_single (image : option UploadedFile)
  : JsError + option UploadedFile :=
  match image with
  | None => inr None
  | Some file =>
    match fileFilter file with
    | Some err => inl err
    | None =>
      if (fileSize <? N.of_nat (List.length (buffer file)))%N then
        inl {| message := JsString.lit "File too large";
               multer_code := Some (JsString.lit "LIMIT_FILE_SIZE") |}
      else inr (Some file)
    end
  end.

(** ** The application *)

Local Open Scope Z_scope.

Definition msPerDay : Z := 86400000.

Section Api.

(** [ObjectId.isValid] and [new ObjectId(string)] of the driver in use. *)
Variable ObjectId_isValid : jsstring -> bool.
Variable ObjectId_new : jsstring -> ObjectId.t.

(** Offset of the server's local time from UTC, in milliseconds.  The zone
    is taken to keep one offset (no daylight-saving transitions). *)
Variable LocalTZA : Z.

(** The day of the local calendar that [t] falls on. *)
Definition localDay (t : Date) : Z := (t + LocalTZA) / msPerDay.

(** [d.setHours(0, 0, 0, 0)] *)
Definition setHours_0_0_0_0 (t : Date) : Date :=
  localDay t * msPerDay - LocalTZA.

Definition get_db : M (option Db) := fun w => (Return (db w), w).

Definition assign_db (d : Db) : M unit :=
  fun w => (Return tt, set_db (Some d) (connections w) w).

Definition connectToDatabase : M Db :=
  cached <- get_db ;;
  match cached with
  | Some d => ret d
  | None =>
    try_catch
      (d <- MongoClient_connect ;;
       assign_db d ;;;
       ret d)
      (fun error => throw error)
  end.

(** [GET /api/health] *)
Definition health_handler : M Response :=
  try_catch
    (database <- connectToDatabase ;;
     command_ping ;;;
     now <- new_Date ;;
     ret (res_json 200
            (HealthJson (JsString.lit "ok")
               (JsString.lit "CP投票站后端API运行正常") now
               (JsString.lit "connected"))))
    (fun error =>
       now <- new_Date ;;
       ret (res_json 500
              (HealthJson (JsString.lit "error")
                 (JsString.lit "数据库连接异常") now
                 (JsString.lit "disconnected")))).

(** The [switch (sort)] of the list handler. *)
Definition sortOption_of (sort : QueryValue) : SortOption :=
  match sort with
  | QString s =>
    if JsString.eqb s (JsString.lit "newest") then (f_createdAt, -1)%Z
    else if JsString.eqb s (JsString.lit "name") then (f_name, 1)%Z
    else if JsString.eqb s (JsString.lit "votes") then (f_votes, -1)%Z
    else (f_votes, -1)%Z
  | _ => (f_votes, -1)%Z
  end.

(** [GET /api/cps] *)
Definition list_handler (query_sort : QueryValue) : M Response :=
  try_catch
    (let sort :=
       match query_sort with
       | QUndefined => QString (JsString.lit "votes")
       | v => v
       end in
     database <- connectToDatabase ;;
     let sortOption := sortOption_of sort in
     cps <- cps_find_sort_toArray sortOption ;;
     ret (res_json 200 (CpsJson cps)))
    (fun error =>
       ret (res_json 500 (ErrorJson (JsString.lit "获取数据失败，请稍后重试")))).

(** The handler of [POST /api/cps], entered after [upload.single('image')]
    has set [req.body] and [req.file]. *)
Definition create_handler (body_name body_description : option jsstring)
    (req_file : option UploadedFile) : M Response :=
  try_catch
    (let description := body_description in
     let imageFile := req_file in
     match body_name with
     | None =>
       ret (res_json 400 (ErrorJson (JsString.lit "CP名称不能为空")))
     | Some name =>
       if negb (JsString.truthy name)
          || negb (JsString.truthy (JsString.trim name)) then
         ret (res_json 400 (ErrorJson (JsString.lit "CP名称不能为空")))
       else
       match imageFile with
       | None =>
         ret (res_json 400 (ErrorJson (JsString.lit "请上传一张图片")))
       | Some imageFile =>
         let imageBase64 := base64 (buffer imageFile) in
         let imageUrl :=
           JsString.lit "data:" ++ mimetype imageFile
           ++ JsString.lit ";base64," ++ imageBase64 in
         let name' := JsString.trim name in
         let description' :=
           JsString.trim (js_or_lit description (JsString.lit "暂无描述")) in
         created <- new_Date ;;
         updated <- new_Date ;;
         let newCP :=
           {| NewCP.name := name';
              NewCP.description := description';
              NewCP.imageUrl := imageUrl;
              NewCP.votes := 0;
              NewCP.createdAt := created;
              NewCP.updatedAt := updated |} in
         database <- connectToDatabase ;;
         insertedId <- cps_insertOne newCP ;;
         ret (res_json 201
                (CreatedJson true
                   (JsString.lit "CP " ++ [34%N] ++ NewCP.name newCP
                    ++ [34%N] ++ JsString.lit " 创建成功！")
                   insertedId
                   (NewCP.with_id insertedId newCP)))
       end
     end)
    (fun error =>
       if JsString.includes (message error) (JsString.lit "图片文件") then
         ret (res_json 400 (ErrorJson (message error)))
       else
         ret (res_json 500
                (ErrorJson (JsString.lit "服务器内部错误，创建失败")))).

(** The error a property read on [null] throws. *)
Definition TypeError_null : JsError :=
  {| message := JsString.lit "Cannot read properties of null";
     multer_code := None |}.

(** [POST /api/cps/:id/vote] *)
Definition vote_handler (params_id : jsstring)
    (req_ip x_forwarded_for : option jsstring) : M Response :=
  try_catch
    (let cpId := params_id in
     let voterIp :=
       js_or_lit (js_or req_ip x_forwarded_for) (JsString.lit "unknown") in
     if negb (ObjectId_isValid cpId) then
       ret (res_json 400 (ErrorJson (JsString.lit "无效的CP ID格式")))
     else
     database <- connectToDatabase ;;
     let objectId := ObjectId_new cpId in
     now <- new_Date ;;
     let todayStart := setHours_0_0_0_0 now in
     existingVote <-
       vote_logs_findOne (fun l =>
         ObjectId.eqb (VoteLog.cpId l) objectId
         && JsString.eqb (VoteLog.voterIp l) voterIp
         && (todayStart <=? VoteLog.votedAt l)%Z) ;;
     match existingVote with
     | Some _ =>
       ret (res_json 400
              (ErrorJson
                 (JsString.lit "您今天已经为此CP投过票了，请明天再来吧！")))
     | None =>
       updatedAt <- new_Date ;;
       matchedCount <-
         cps_updateOne
           (fun cp => ObjectId.eqb (CP._id cp) objectId)
           (fun cp =>
              {| CP._id := CP._id cp; CP.name := CP.name cp;
                 CP.description := CP.description cp;
                 CP.imageUrl := CP.imageUrl cp;
                 CP.votes := CP.votes cp + 1;
                 CP.createdAt := CP.createdAt cp;
                 CP.updatedAt := updatedAt |}) ;;
       if (matchedCount =? 0)%Z then
         ret (res_json 404 (ErrorJson (JsString.lit "未找到指定的CP")))
       else
       votedAt <- new_Date ;;
       vote_logs_insertOne
         {| NewVoteLog.cpId := objectId;
            NewVoteLog.voterIp := voterIp;
            NewVoteLog.votedAt := votedAt |} ;;;
       updatedCP <- cps_findOne (fun cp => ObjectId.eqb (CP._id cp) objectId) ;;
       match updatedCP with
       | None => throw TypeError_null
       | Some updatedCP =>
         ret (res_json 200
                (VotedJson true (JsString.lit "投票成功！感谢您的支持！")
                   (CP.votes updatedCP)))
       end
     end)
    (fun error =>
       ret (res_json 500 (ErrorJson (JsString.lit "投票失败，请稍后重试")))).

(** [GET /api/cps/:id] *)
Definition get_handler (params_id : jsstring) : M Response :=
  try_catch
    (let cpId := params_id in
     if negb (ObjectId_isValid cpId) then
       ret (res_json 400 (ErrorJson (JsString.lit "无效的CP ID格式")))
     else
     database <- connectToDatabase ;;
     cp <- cps_findOne (fun cp =>
             ObjectId.eqb (CP._id cp) (ObjectId_new cpId)) ;;
     match cp with
     | None => ret (res_json 404 (ErrorJson (JsString.lit "未找到该CP")))
     | Some cp => ret (res_json 200 (CpJson cp))
     end)
    (fun error => ret (res_json 500 (ErrorJson (JsString.lit "获取数据失败")))).

(** The error-handling middleware, which receives what a middleware passed
    to [next(err)]. *)
Definition error_middleware (err : JsError) : Response :=
  match multer_code err with
  | Some code =>
    if JsString.eqb code (JsString.lit "LIMIT_FILE_SIZE") then
      res_json 400
        (ErrorJson (JsString.lit "上传的图片文件过大，请确保小于5MB"))
    else res_json 500 (ErrorJson (JsString.lit "服务器内部错误"))
  | None => res_json 500 (ErrorJson (JsString.lit "服务器内部错误"))
  end.

(** The route [POST /api/cps]: [upload.single('image')], then the handler;
    an error of the middleware skips the handler. *)
Definition create_route (name description : option jsstring)
    (image : option UploadedFile) : M Response :=
  match upload_single image with
  | inl err => ret (error_middleware err)
  | inr req_file => create_handler name description req_file
  end.

(** The application: one request, routed to its handler.  A [Request] is
    a request that reaches the routes: what the global middleware answers
    on its own ([cors()] on a preflight request, [express.json()] on a body
    it cannot parse) is not covered. *)
Definition app (req : Request) : M Response :=
  match req with
  | GET_health => health_handler
  | GET_cps sort => list_handler sort
  | POST_cps name description image => create_route name description image
  | POST_cps_vote id ip forwarded => vote_handler id ip forwarded
  | GET_cps_id id => get_handler id
  | Unmatched => ret (res_json 404 (EndpointsJson (JsString.lit "API端点不存在")))
  end.

(** One transition of the system: the application serves a request, or the
    environment moves on (time passes, the store becomes reachable or not)
    without touching the process or the stored documents.  A request is
    served in one transition: handlers that overlap in time are not
    covered. *)
Inductive step : World -> World -> Prop :=
| step_request (req : Request) (w : World) : step w (snd (app req w))
| step_environment (w w' : World) :
    db w' = db w -> cps w' = cps w -> vote_logs w' = vote_logs w ->
    connections w' = connections w ->
    step w w'.

End Api.

(** ** The vocabulary of the specification *)

(** The world after [connectToDatabase] has succeeded. *)
Definition connected (w : World) : World :=
  match db w with
  | Some _ => w
  | None => set_db (Some {| client := connections w |}) (S (connections w)) w
  end.

(** The handle [connectToDatabase] returns when it succeeds. *)
Definition handle (w : World) : Db :=
  match db w with
  | Some d => d
  | None => {| client := connections w |}
  end.

(** [req.ip || req.headers['x-forwarded-for'] || 'unknown'] *)
Definition voterIp_of (ip forwarded : option jsstring) : jsstring :=
  js_or_lit (js_or ip forwarded) (JsString.lit "unknown").

(** The error responses, under the names the specification gives them. *)
Definition ValidationError (msg : jsstring) : Response :=
  res_json 400 (ErrorJson msg).

Definition invalid_id : jsstring := JsString.lit "无效的CP ID格式".
Definition name_required : jsstring := JsString.lit "CP名称不能为空".
Definition image_required : jsstring := JsString.lit "请上传一张图片".
Definition too_large : jsstring :=
  JsString.lit "上传的图片文件过大，请确保小于5MB".

Definition DuplicateVoteError : Response :=
  res_json 400
    (ErrorJson (JsString.lit "您今天已经为此CP投过票了，请明天再来吧！")).

Definition NotFoundError_vote : Response :=
  res_json 404 (ErrorJson (JsString.lit "未找到指定的CP")).

Definition placeholder : jsstring := JsString.lit "暂无描述".

(** A vote log stands against a vote for [objectId] by [voterIp] when it
    is for the same item, by the same address, and not older than
    [todayStart]. *)
Definition blocks (objectId : ObjectId.t) (voterIp : jsstring)
    (todayStart : Date) (l : VoteLog.t) : Prop :=
  VoteLog.cpId l = objectId /\ VoteLog.voterIp l = voterIp
  /\ todayStart <= VoteLog.votedAt l.

(** [$inc: { votes: 1 }, $set: { updatedAt: d }] *)
Definition voted (d : Date) (cp : CP.t) : CP.t :=
  {| CP._id := CP._id cp; CP.name := CP.name cp;
     CP.description := CP.description cp; CP.imageUrl := CP.imageUrl cp;
     CP.votes := CP.votes cp + 1; CP.createdAt := CP.createdAt cp;
     CP.updatedAt := d |}.

(** The filter of the duplicate check. *)
Definition vote_filter (objectId : ObjectId.t) (voterIp : jsstring)
    (todayStart : Date) (l : VoteLog.t) : bool :=
  ObjectId.eqb (VoteLog.cpId l) objectId
  && JsString.eqb (VoteLog.voterIp l) voterIp
  && (todayStart <=? VoteLog.votedAt l).

(** The vote log a successful vote for [objectId] appends. *)
Definition new_log (objectId : ObjectId.t) (ip forwarded : option jsstring)
    (w : World) : VoteLog.t :=
  {| VoteLog._id := oids w (oid_count w);
     VoteLog.cpId := objectId;
     VoteLog.voterIp := voterIp_of ip forwarded;
     VoteLog.votedAt := clock w (S (S (ticks w))) |}.

(** The filter [{ _id: objectId }]. *)
Definition has_id (objectId : ObjectId.t) (cp : CP.t) : bool :=
  ObjectId.eqb (CP._id cp) objectId.

(** The states of the system: it starts on empty collections and moves by
    [step]. *)
Inductive reachable (isValid : jsstring -> bool)
    (new : jsstring -> ObjectId.t) (tza : Z) : World -> Prop :=
| reach_init (w : World) :
    cps w = [] -> vote_logs w = [] -> reachable isValid new tza w
| reach_step (w w' : World) :
    reachable isValid new tza w -> step isValid new tza w w' ->
    reachable isValid new tza w'.

(** Every vote log is for a stored item. *)
Definition logs_refer (w : World) : Prop :=
  forall l, In l (vote_logs w) ->
    exists cp, In cp (cps w) /\ CP._id cp = VoteLog.cpId l.

(** The orders the list endpoint promises. *)
Definition votes_desc (a b : CP.t) : Prop := CP.votes b <= CP.votes a.
Definition newest_first (a b : CP.t) : Prop := CP.createdAt b <= CP.createdAt a.
Definition name_asc (a b : CP.t) : Prop :=
  JsString.leb (CP.name a) (CP.name b) = true.

(** A boolean comparison, as a relation. *)
Definition le_of {A} (leb : A -> A -> bool) (a b : A) : Prop :=
  leb a b = true.

(** The order a sort document asks for. *)
Definition in_order (o : SortOption) : CP.t -> CP.t -> Prop :=
  le_of (sort_leb o).

Definition is_vote (req : Request) : bool :=
  match req with POST_cps_vote _ _ _ => true | _ => false end.

(** How one transition can change the two collections: not at all, by one
    new item without votes, or by one more vote on one item together with
    its log. *)
Inductive evolves (w w' : World) : Prop :=
| ev_same :
    cps w' = cps w -> vote_logs w' = vote_logs w -> evolves w w'
| ev_create (cp : CP.t) :
    CP.votes cp = 0 -> cps w' = cps w ++ [cp] ->
    vote_logs w' = vote_logs w -> evolves w w'
| ev_vote (l1 l2 : list CP.t) (cp : CP.t) (d : Date) (log : VoteLog.t) :
    cps w = l1 ++ cp :: l2 -> cps w' = l1 ++ voted d cp :: l2 ->
    vote_logs w' = vote_logs w ++ [log] -> VoteLog.cpId log = CP._id cp ->
    evolves w w'.

(** The sort document the list handler uses for a query value. *)
Definition sortOption_for (query_sort : QueryValue) : SortOption :=
  sortOption_of
    (match query_sort with
     | QUndefined => QString (JsString.lit "votes")
     | v => v
     end).

(** The status of the response, when there is one. *)
Definition status_of (o : Outcome Response * World) : option Z :=
  match fst o with
  | Return r => Some (status r)
  | Throw _ => None
  end.

Definition votes_nonneg (w : World) : Prop :=
  Forall (fun cp => 0 <= CP.votes cp) (cps w).

(** ** A concrete driver and a concrete world, for the examples

    Every version of the driver accepts the strings of 24 hexadecimal
    digits as identifiers; the examples below use exactly those. *)

Definition is_hex (c : N) : bool :=
  ((48 <=? c) && (c <=? 57) || (97 <=? c) && (c <=? 102)
   || (65 <=? c) && (c <=? 70))%N.

Definition hex_value (c : N) : N :=
  (if c <=? 57 then c - 48 else if c <=? 70 then c - 55 else c - 87)%N.

Definition hex24_isValid (s : jsstring) : bool :=
  (List.length s =? 24)%nat && forallb is_hex s.

Definition hex24_new (s : jsstring) : ObjectId.t :=
  fold_left (fun acc c => (16 * acc + hex_value c)%N) s 0%N.

(** A server started at 2024-03-01 10:00:00 UTC on an empty database, whose
    clock advances by one millisecond between two readings. *)
Definition world0 : World :=
  {| db := None; cps := []; vote_logs := []; connections := 0%nat;
     outage := None;
     clock := fun k => 1709287200000 + Z.of_nat k;
     ticks := 0%nat;
     oids := fun k => (0x65e1a0a0b1c2d3e4f5060000 + N.of_nat k)%N;
     oid_count := 0%nat |}.

Definition jpeg_1 : UploadedFile :=
  {| mimetype := JsString.lit "image/jpeg"; buffer := [xff; xd8; xff; xe0] |}.

(** An upload that is not an image. *)
Definition text_plain : UploadedFile :=
  {| mimetype := JsString.lit "text/plain"; buffer := [x68; x69] |}.

Definition sample_app := app hex24_isValid hex24_new 0.

Definition sample_id : jsstring := JsString.lit "65e1a0a0b1c2d3e4f5060000".
Definition other_id : jsstring := JsString.lit "000000000000000000000000".
Definition sample_ip : jsstring := JsString.lit "1.2.3.4".

(** The item the first create request of [world0] stores. *)
Definition item1 : CP.t :=
  {| CP._id := 0x65e1a0a0b1c2d3e4f5060000%N;
     CP.name := JsString.lit "A";
     CP.description := JsString.lit "d";
     CP.imageUrl := JsString.lit "data:image/jpeg;base64,/9j/4A==";
     CP.votes := 0;
     CP.createdAt := 1709287200000;
     CP.updatedAt := 1709287200001 |}.

(** The scenario of the specification: an item is created, ... *)
Definition world1 : World :=
  snd (sample_app
         (POST_cps (Some (JsString.lit " A ")) (Some (JsString.lit "d"))
            (Some jpeg_1))
         world0).

(** ... and a first vote is cast for it from [1.2.3.4]. *)
Definition world2 : World :=
  snd (sample_app (POST_cps_vote sample_id (Some sample_ip) None) world1).

(** The same server one day later. *)
Definition next_day (w : World) : World :=
  {| db := db w; cps := cps w; vote_logs := vote_logs w;
     connections := connections w; outage := outage w;
     clock := fun k => clock w k + msPerDay; ticks := ticks w;
     oids := oids w; oid_count := oid_count w |}.

(** The world after a list of requests, served one after the other. *)
Definition run (reqs : list Request) (w : World) : World :=
  fold_left (fun w req => snd (sample_app req w)) reqs w.

Definition second_id : jsstring := JsString.lit "65e1a0a0b1c2d3e4f5060001".
Definition third_id : jsstring := JsString.lit "65e1a0a0b1c2d3e4f5060002".
Definition second_ip : jsstring := JsString.lit "5.6.7.8".

(** Three items, created in the order B, A, C; then A gets two votes and C
    one, so that the stored order and the three sort orders of the list
    route are four different orders. *)
Definition shelf : World :=
  run [POST_cps (Some (JsString.lit "B")) None (Some jpeg_1);
       POST_cps (Some (JsString.lit "A")) None (Some jpeg_1);
       POST_cps (Some (JsString.lit "C")) None (Some jpeg_1);
       POST_cps_vote second_id (Some sample_ip) None;
       POST_cps_vote second_id (Some second_ip) None;
       POST_cps_vote third_id (Some sample_ip) None]
    world0.

(** The store has become unreachable before the first request. *)
Definition world_down : World :=
  {| db := None; cps := []; vote_logs := []; connections := 0%nat;
     outage := Some {| message := JsString.lit "connect ECONNREFUSED";
                       multer_code := None |};
     clock := clock world0; ticks := 0%nat;
     oids := oids world0; oid_count := 0%nat |}.

(** The not-found response of [GET /api/cps/:id]. *)
Definition NotFoundError_get : Response :=
  res_json 404 (ErrorJson (JsString.lit "未找到该CP")).

(** What the service never rewrites in a stored item: everything but
    [votes] and [updatedAt]. *)
Definition fixed_part (cp : CP.t)
  : ObjectId.t * jsstring * jsstring * jsstring * Date :=
  (CP._id cp, CP.name cp, CP.description cp, CP.imageUrl cp, CP.createdAt cp).

(** The shape the create handler gives to what it stores. *)
Definition well_formed (cp : CP.t) : Prop :=
  CP.name cp <> [] /\ JsString.trim (CP.name cp) = CP.name cp
  /\ JsString.trim (CP.description cp) = CP.description cp
  /\ JsString.startsWith (CP.imageUrl cp) (JsString.lit "data:image/") = true.

(** The same world once the store can be reached again. *)
Definition store_back (w : World) : World :=
  {| db := db w; cps := cps w; vote_logs := vote_logs w;
     connections := connections w; outage := None; clock := clock w;
     ticks := ticks w; oids := oids w; oid_count := oid_count w |}.

(** The identifiers of the stored items. *)
Definition item_ids (w : World) : list ObjectId.t := map CP._id (cps w).

Arguments JsString.lit : simpl never.

(** The literals are unfolded last when two terms are compared. *)
Strategy 100 [JsString.lit].

(** * Facts *)

Unset Implicit Arguments.

(** ** Strings *)

Lemma JsString_eqb_eq (a b : jsstring) : JsString.eqb a b = true <-> a = b.
Proof.
  revert b. induction a as [|x a IH]; intros [|y b]; simpl;
    try (split; congruence).
  rewrite andb_true_iff, N.eqb_eq, IH. split.
  - now intros [-> ->].
  - now intros [= -> ->].
Qed.

Lemma JsString_eqb_refl (a : jsstring) : JsString.eqb a a = true.
Proof. now apply JsString_eqb_eq. Qed.

Lemma ObjectId_eqb_eq (a b : ObjectId.t) : ObjectId.eqb a b = true <-> a = b.
Proof. apply N.eqb_eq. Qed.

(** ** [find] and [updateOne] *)

Lemma find_none_iff {A} (p : A -> bool) (l : list A) :
  find p l = None <-> forall x, In x l -> p x = false.
Proof.
  split.
  - apply find_none.
  - induction l as [|a l IH]; intros H; simpl; [reflexivity|].
    rewrite (H a (or_introl eq_refl)). apply IH. intros x Hx.
    apply H. now right.
Qed.

Lemma update_first_none {A} (p : A -> bool) (f : A -> A) (l : list A) :
  find p l = None -> update_first p f l = (l, 0).
Proof.
  induction l as [|a l IH]; simpl; [reflexivity|].
  destruct (p a); [discriminate|]. intros H. now rewrite (IH H).
Qed.

Lemma update_first_some {A} (p : A -> bool) (f : A -> A) (l : list A) x :
  find p l = Some x ->
  exists l1 l2,
    l = l1 ++ x :: l2 /\ (forall y, In y l1 -> p y = false) /\ p x = true
    /\ update_first p f l = (l1 ++ f x :: l2, 1).
Proof.
  induction l as [|a l IH]; simpl; [discriminate|].
  destruct (p a) eqn:Ha.
  - intros [= ->]. exists [], l. simpl. repeat split; auto.
    intros y [].
  - intros H. destruct (IH H) as (l1 & l2 & -> & Hl1 & Hx & Hu).
    exists (a :: l1), l2. simpl. rewrite Hu. repeat split; auto.
    intros y [<-|Hy]; auto.
Qed.

Lemma find_app_skip {A} (p : A -> bool) (l1 l2 : list A) x :
  (forall y, In y l1 -> p y = false) -> p x = true ->
  find p (l1 ++ x :: l2) = Some x.
Proof.
  induction l1 as [|a l1 IH]; simpl; intros H Hx.
  - now rewrite Hx.
  - rewrite (H a (or_introl eq_refl)). apply IH; auto.
Qed.

(** ** The calendar *)

Section Calendar.

Variable LocalTZA : Z.

Lemma setHours_le (t : Date) : setHours_0_0_0_0 LocalTZA t <= t.
Proof.
  unfold setHours_0_0_0_0, localDay, msPerDay.
  pose proof (Z.mul_div_le (t + LocalTZA) 86400000). lia.
Qed.

Lemma setHours_same_day (t t' : Date) :
  localDay LocalTZA t = localDay LocalTZA t' ->
  setHours_0_0_0_0 LocalTZA t = setHours_0_0_0_0 LocalTZA t'.
Proof. unfold setHours_0_0_0_0. now intros ->. Qed.

Lemma setHours_later_day (t t' : Date) :
  localDay LocalTZA t < localDay LocalTZA t' ->
  t < setHours_0_0_0_0 LocalTZA t'.
Proof.
  unfold setHours_0_0_0_0, localDay, msPerDay. intros H.
  pose proof (Z.mod_pos_bound (t + LocalTZA) 86400000).
  pose proof (Z.div_mod (t + LocalTZA) 86400000). lia.
Qed.

End Calendar.

(** ** Running the handlers *)

(** Symbolic execution of a handler on a world given by its fields. *)
Ltac run_world :=
  cbv beta iota delta
    [try_catch bind ret throw mongo new_Date new_ObjectId get_db assign_db
     connectToDatabase MongoClient_connect command_ping
     cps_find_sort_toArray cps_insertOne cps_findOne cps_updateOne
     vote_logs_findOne vote_logs_insertOne
     set_db set_cps set_vote_logs set_ticks set_oid_count
     db cps vote_logs connections outage clock ticks oids oid_count
     connected handle negb orb fst snd Z.eqb].

Lemma connect_run (w : World) :
  outage w = None -> connectToDatabase w = (Return (handle w), connected w).
Proof.
  intros H.
  unfold connectToDatabase, handle, connected, bind, get_db, try_catch,
    MongoClient_connect, mongo, assign_db, ret.
  destruct (db w) eqn:Hdb; [reflexivity|].
  rewrite H. simpl. rewrite Hdb. reflexivity.
Qed.

Lemma connect_cached (w : World) (d : Db) :
  db w = Some d -> connectToDatabase w = (Return d, w).
Proof.
  intros H. unfold connectToDatabase, bind, get_db, ret. now rewrite H.
Qed.

Lemma connect_fail (w : World) (e : JsError) :
  db w = None -> outage w = Some e -> connectToDatabase w = (Throw e, w).
Proof.
  intros Hdb H.
  unfold connectToDatabase, bind, get_db, try_catch, MongoClient_connect,
    mongo, throw.
  now rewrite Hdb, H.
Qed.

Lemma connected_cps (w : World) : cps (connected w) = cps w.
Proof. unfold connected. now destruct (db w). Qed.

Lemma connected_vote_logs (w : World) :
  vote_logs (connected w) = vote_logs w.
Proof. unfold connected. now destruct (db w). Qed.

Lemma vote_filter_blocks objectId voterIp todayStart l :
  vote_filter objectId voterIp todayStart l = true
  <-> blocks objectId voterIp todayStart l.
Proof.
  unfold vote_filter, blocks.
  rewrite !andb_true_iff, ObjectId_eqb_eq, JsString_eqb_eq, Z.leb_le.
  tauto.
Qed.

Lemma find_some_blocks objectId voterIp todayStart (logs : list VoteLog.t) :
  (exists l, find (vote_filter objectId voterIp todayStart) logs = Some l)
  <-> exists l, In l logs /\ blocks objectId voterIp todayStart l.
Proof.
  split.
  - intros [l Hl]. apply find_some in Hl. exists l.
    now rewrite <- vote_filter_blocks.
  - intros [l [Hin Hb]]. apply vote_filter_blocks in Hb.
    destruct (find _ logs) as [l'|] eqn:Hf; [now exists l'|].
    rewrite (find_none _ _ Hf l Hin) in Hb. discriminate.
Qed.

Section VoteFacts.

Variable ObjectId_isValid : jsstring -> bool.
Variable ObjectId_new : jsstring -> ObjectId.t.
Variable LocalTZA : Z.

Local Abbreviation vote :=
  (vote_handler ObjectId_isValid ObjectId_new LocalTZA).

(** What the vote handler does on a well-formed identifier while the
    store can be reached. *)
Lemma vote_run id ip forwarded (w : World) :
  ObjectId_isValid id = true -> outage w = None ->
  vote id ip forwarded w =
  let objectId := ObjectId_new id in
  let todayStart := setHours_0_0_0_0 LocalTZA (clock w (ticks w)) in
  match find (vote_filter objectId (voterIp_of ip forwarded) todayStart)
          (vote_logs w) with
  | Some _ =>
    (Return DuplicateVoteError, set_ticks (S (ticks w)) (connected w))
  | None =>
    match find (has_id objectId) (cps w) with
    | None =>
      (Return NotFoundError_vote,
       set_cps (cps w) (set_ticks (S (S (ticks w))) (connected w)))
    | Some cp =>
      (Return (res_json 200
                 (VotedJson true (JsString.lit "投票成功！感谢您的支持！")
                    (CP.votes cp + 1))),
       set_vote_logs (vote_logs w ++ [new_log objectId ip forwarded w])
         (set_oid_count (S (oid_count w))
            (set_ticks (S (S (S (ticks w))))
               (set_cps
                  (fst (update_first (has_id objectId)
                          (voted (clock w (S (ticks w)))) (cps w)))
                  (connected w)))))
    end
  end.
Proof.
  intros Hv Ho.
  destruct w as [d c vl n o ck tk oi oc]. simpl in Ho. subst o.
  unfold vote_handler, voted, new_log, voterIp_of, vote_filter, has_id.
  rewrite Hv.
  destruct d as [d|]; run_world.
  all: destruct (find _ vl) as [l|]; [reflexivity|].
  all: destruct (find _ c) as [cp|] eqn:Hcp.
  all: try (rewrite (update_first_none _ _ _ Hcp); run_world; reflexivity).
  all: destruct (update_first_some _
                   (fun cp0 => {| CP._id := CP._id cp0; CP.name := CP.name cp0;
                      CP.description := CP.description cp0;
                      CP.imageUrl := CP.imageUrl cp0;
                      CP.votes := CP.votes cp0 + 1;
                      CP.createdAt := CP.createdAt cp0;
                      CP.updatedAt := ck (S tk) |}) _ _ Hcp)
         as (l1 & l2 & Hw & Hl1 & Hx & Hu).
  all: rewrite Hu; run_world.
  all: rewrite find_app_skip by (cbn; auto); reflexivity.
Qed.

Lemma vote_invalid id ip forwarded (w : World) :
  ObjectId_isValid id = false ->
  vote id ip forwarded w = (Return (ValidationError invalid_id), w).
Proof.
  intros Hv. unfold vote_handler, try_catch, ret.
  rewrite Hv. reflexivity.
Qed.

Lemma vote_outage id ip forwarded (w : World) (e : JsError) :
  ObjectId_isValid id = true -> outage w = Some e ->
  fst (vote id ip forwarded w)
  = Return (res_json 500 (ErrorJson (JsString.lit "投票失败，请稍后重试")))
  /\ cps (snd (vote id ip forwarded w)) = cps w
  /\ vote_logs (snd (vote id ip forwarded w)) = vote_logs w.
Proof.
  intros Hv Ho.
  destruct w as [d c vl n o ck tk oi oc]. simpl in Ho. subst o.
  unfold vote_handler. rewrite Hv.
  destruct d as [d|]; run_world; repeat split; reflexivity.
Qed.

(** C1.  On a well-formed identifier, and while the store can be reached, the
    vote handler answers with the duplicate-vote error (status 400) if and
    only if some stored vote log has the same item, the same voter address
    and a [votedAt] at or after the local midnight before the call.  In
    particular a log of the same local calendar day makes the vote fail,
    and when every log of that voter for that item is of an earlier
    calendar day, a vote for a stored item succeeds. *)
Theorem vote_duplicate_iff id ip forwarded (w : World) :
  ObjectId_isValid id = true -> outage w = None ->
  let objectId := ObjectId_new id in
  let voterIp := voterIp_of ip forwarded in
  let now := clock w (ticks w) in
  let todayStart := setHours_0_0_0_0 LocalTZA now in
  let response := fst (vote id ip forwarded w) in
  (response = Return DuplicateVoteError
   <-> exists l, In l (vote_logs w) /\ blocks objectId voterIp todayStart l)
  /\ status DuplicateVoteError = 400
  /\ (forall l, In l (vote_logs w) ->
        VoteLog.cpId l = objectId -> VoteLog.voterIp l = voterIp ->
        localDay LocalTZA (VoteLog.votedAt l) = localDay LocalTZA now ->
        response = Return DuplicateVoteError)
  /\ ((forall l, In l (vote_logs w) ->
         VoteLog.cpId l = objectId -> VoteLog.voterIp l = voterIp ->
         localDay LocalTZA (VoteLog.votedAt l) < localDay LocalTZA now) ->
      (exists cp, In cp (cps w) /\ CP._id cp = objectId) ->
      exists r, response = Return r /\ status r = 200).
Proof.
  intros Hv Ho objectId voterIp now todayStart response.
  assert (Hiff : response = Return DuplicateVoteError
                 <-> exists l, In l (vote_logs w)
                               /\ blocks objectId voterIp todayStart l).
  { rewrite <- find_some_blocks. subst response.
    rewrite (vote_run id ip forwarded w Hv Ho). cbv zeta.
    fold objectId voterIp now todayStart.
    destruct (find (vote_filter objectId voterIp todayStart) (vote_logs w))
      as [l|].
    - simpl. split; eauto.
    - split.
      + destruct (find (has_id objectId) (cps w)); simpl; discriminate.
      + intros [l Hl]. discriminate. }
  split; [exact Hiff|]. split; [reflexivity|]. split.
  - intros l Hin Hc Hi Hday. apply Hiff. exists l. split; [exact Hin|].
    repeat split; auto. unfold todayStart.
    rewrite <- (setHours_same_day LocalTZA _ _ Hday). apply setHours_le.
  - intros Hold [cp [Hin Hid]].
    assert (Hnone : find (vote_filter objectId voterIp todayStart)
                      (vote_logs w) = None).
    { apply find_none_iff. intros l Hl.
      destruct (vote_filter objectId voterIp todayStart l) eqn:Hb; auto.
      apply vote_filter_blocks in Hb. destruct Hb as (Hc & Hi & Hle).
      pose proof (setHours_later_day LocalTZA _ _ (Hold l Hl Hc Hi)) as Hlt.
      unfold todayStart in Hle. lia. }
    subst response. rewrite (vote_run id ip forwarded w Hv Ho). cbv zeta.
    fold objectId voterIp now todayStart. rewrite Hnone.
    destruct (find (has_id objectId) (cps w)) as [cp'|] eqn:Hf.
    + eexists. split; reflexivity.
    + apply find_none with (x := cp) in Hf; auto.
      unfold has_id in Hf. rewrite Hid in Hf.
      unfold ObjectId.eqb in Hf. rewrite N.eqb_refl in Hf. discriminate.
Qed.

(** C2.  A vote for a stored item, by a voter no log stands against, while
    the store can be reached: the first stored item with that identifier
    (the item, identifiers being unique) has its [votes] raised by exactly 1
    and its [updatedAt] set to the clock reading taken for the update, no
    other item and no other field changes, exactly one vote log is appended,
    with the item, the voter address and the clock reading taken for the
    log, and the response carries the updated count, the previous [votes]
    plus 1. *)
Theorem vote_success_effect id ip forwarded (w : World) l1 cp l2 :
  ObjectId_isValid id = true -> outage w = None ->
  let objectId := ObjectId_new id in
  let voterIp := voterIp_of ip forwarded in
  let todayStart := setHours_0_0_0_0 LocalTZA (clock w (ticks w)) in
  (forall l, In l (vote_logs w) -> ~ blocks objectId voterIp todayStart l) ->
  cps w = l1 ++ cp :: l2 -> CP._id cp = objectId ->
  (forall y, In y l1 -> CP._id y <> objectId) ->
  let response := fst (vote id ip forwarded w) in
  let w' := snd (vote id ip forwarded w) in
  let updated := voted (clock w (S (ticks w))) cp in
  let log := new_log objectId ip forwarded w in
  response
  = Return (res_json 200
              (VotedJson true (JsString.lit "投票成功！感谢您的支持！")
                 (CP.votes cp + 1)))
  /\ cps w' = l1 ++ updated :: l2
  /\ CP.votes updated = CP.votes cp + 1
  /\ CP.updatedAt updated = clock w (S (ticks w))
  /\ (CP._id updated = CP._id cp /\ CP.name updated = CP.name cp
      /\ CP.description updated = CP.description cp
      /\ CP.imageUrl updated = CP.imageUrl cp
      /\ CP.createdAt updated = CP.createdAt cp)
  /\ vote_logs w' = vote_logs w ++ [log]
  /\ VoteLog.cpId log = objectId /\ VoteLog.voterIp log = voterIp
  /\ VoteLog.votedAt log = clock w (S (S (ticks w))).
Proof.
  intros Hv Ho objectId voterIp todayStart Hfree Hw Hid Hl1.
  assert (Hnone : find (vote_filter objectId voterIp todayStart)
                    (vote_logs w) = None).
  { apply find_none_iff. intros l Hl.
    destruct (vote_filter objectId voterIp todayStart l) eqn:Hb; auto.
    apply vote_filter_blocks in Hb. now destruct (Hfree l Hl). }
  assert (Hp1 : forall y, In y l1 -> has_id objectId y = false).
  { intros y Hy. unfold has_id, ObjectId.eqb. apply N.eqb_neq. auto. }
  assert (Hpc : has_id objectId cp = true).
  { unfold has_id, ObjectId.eqb. now apply N.eqb_eq. }
  assert (Hfind : find (has_id objectId) (cps w) = Some cp).
  { rewrite Hw. now apply find_app_skip. }
  assert (Hupd : forall d, update_first (has_id objectId) (voted d) (cps w)
                           = (l1 ++ voted d cp :: l2, 1)).
  { intros d.
    destruct (update_first_some (has_id objectId) (voted d) _ _ Hfind)
      as (k1 & k2 & Hk & Hk1 & _ & Hu).
    rewrite Hu. rewrite Hw in Hk.
    assert (Hsplit : l1 = k1 /\ l2 = k2).
    { clear - Hk Hk1 Hp1 Hpc. revert k1 Hk Hk1.
      induction l1 as [|a l1 IH]; intros [|b k1] Hk Hk1; simpl in Hk.
      - injection Hk as E; auto.
      - injection Hk as E _. rewrite <- E in Hk1.
        rewrite (Hk1 cp (or_introl eq_refl)) in Hpc. discriminate.
      - injection Hk as E _. rewrite E in Hp1.
        rewrite (Hp1 cp (or_introl eq_refl)) in Hpc. discriminate.
      - injection Hk as E Hk'. rewrite E.
        destruct (IH (fun y Hy => Hp1 y (or_intror Hy)) k1 Hk'
                    (fun y Hy => Hk1 y (or_intror Hy))) as [E1 E2].
        now rewrite E1, E2. }
    destruct Hsplit as [-> ->]. reflexivity. }
  cbv zeta. rewrite (vote_run id ip forwarded w Hv Ho). cbv zeta.
  fold objectId voterIp todayStart. rewrite Hnone, Hfind, Hupd.
  simpl. repeat split; reflexivity.
Qed.

(** C9.  When the vote handler answers with the validation error for a
    malformed identifier, with the duplicate-vote error or with the
    not-found error, both collections are as they were: no item and no vote
    log is added or changed. *)
Theorem vote_failure_unchanged id ip forwarded (w : World) :
  let response := fst (vote id ip forwarded w) in
  let w' := snd (vote id ip forwarded w) in
  response = Return (ValidationError invalid_id)
  \/ response = Return DuplicateVoteError
  \/ response = Return NotFoundError_vote ->
  cps w' = cps w /\ vote_logs w' = vote_logs w.
Proof.
  cbv zeta. destruct (ObjectId_isValid id) eqn:Hv.
  2: { rewrite (vote_invalid id ip forwarded w Hv). auto. }
  destruct (outage w) as [e|] eqn:Ho.
  { intros _. now destruct (vote_outage id ip forwarded w e Hv Ho). }
  rewrite (vote_run id ip forwarded w Hv Ho). cbv zeta.
  destruct (find (vote_filter _ _ _) (vote_logs w)).
  - intros _. simpl. now rewrite connected_cps, connected_vote_logs.
  - destruct (find (has_id _) (cps w)).
    + simpl. intros [H|[H|H]]; discriminate.
    + intros _. simpl. now rewrite connected_vote_logs.
Qed.

End VoteFacts.

(** ** Create *)

Lemma trimStart_spaces (s : jsstring) :
  Forall (fun c => JsString.is_space c = true) s -> JsString.trimStart s = [].
Proof.
  induction 1 as [|c s Hc _ IH]; simpl; [reflexivity|]. now rewrite Hc.
Qed.

Lemma trim_spaces (s : jsstring) :
  Forall (fun c => JsString.is_space c = true) s -> JsString.trim s = [].
Proof.
  intros H. unfold JsString.trim. now rewrite (trimStart_spaces s H).
Qed.

Lemma trim_truthy (s : jsstring) :
  JsString.truthy (JsString.trim s) = true -> JsString.truthy s = true.
Proof. destruct s; [discriminate|reflexivity]. Qed.

Lemma truthy_nonempty (s : jsstring) : JsString.truthy s = true <-> s <> [].
Proof. destruct s; simpl; split; congruence. Qed.

Lemma hex_digits_length (k : nat) (n : N) (acc : jsstring) :
  List.length (ObjectId.hex_digits k n acc) = (k + List.length acc)%nat.
Proof.
  revert n acc. induction k as [|k IH]; intros n acc; simpl; [reflexivity|].
  rewrite IH. simpl. lia.
Qed.

Lemma toHexString_length (id : ObjectId.t) :
  List.length (ObjectId.toHexString id) = 24%nat.
Proof. unfold ObjectId.toHexString. now rewrite hex_digits_length. Qed.

(** The item a valid create request builds. *)
Lemma create_run (name : jsstring) (description : option jsstring)
    (file : UploadedFile) (w : World) :
  JsString.trim name <> [] -> outage w = None ->
  create_handler (Some name) description (Some file) w =
  let id := oids w (oid_count w) in
  let cp :=
    {| CP._id := id;
       CP.name := JsString.trim name;
       CP.description := JsString.trim (js_or_lit description placeholder);
       CP.imageUrl :=
         JsString.lit "data:" ++ mimetype file ++ JsString.lit ";base64,"
         ++ base64 (buffer file);
       CP.votes := 0;
       CP.createdAt := clock w (ticks w);
       CP.updatedAt := clock w (S (ticks w)) |} in
  (Return (res_json 201
             (CreatedJson true
                (JsString.lit "CP " ++ [34%N] ++ JsString.trim name ++ [34%N]
                 ++ JsString.lit " 创建成功！")
                id cp)),
   set_cps (cps w ++ [cp])
     (set_oid_count (S (oid_count w))
        (connected (set_ticks (S (S (ticks w))) w)))).
Proof.
  intros Hn Ho. apply truthy_nonempty in Hn.
  pose proof (trim_truthy name Hn) as Hn'.
  destruct w as [d c vl n o ck tk oi oc]. simpl in Ho. subst o.
  unfold create_handler, placeholder. rewrite Hn, Hn'.
  destruct d as [d|]; run_world; reflexivity.
Qed.

Lemma create_outage (name : jsstring) (description : option jsstring)
    (file : UploadedFile) (w : World) (e : JsError) :
  JsString.trim name <> [] -> outage w = Some e ->
  fst (create_handler (Some name) description (Some file) w)
  = Return (if JsString.includes (message e) (JsString.lit "图片文件")
            then res_json 400 (ErrorJson (message e))
            else res_json 500
                   (ErrorJson (JsString.lit "服务器内部错误，创建失败")))
  /\ cps (snd (create_handler (Some name) description (Some file) w)) = cps w
  /\ vote_logs (snd (create_handler (Some name) description (Some file) w))
     = vote_logs w.
Proof.
  intros Hn Ho. apply truthy_nonempty in Hn.
  pose proof (trim_truthy name Hn) as Hn'.
  destruct w as [d c vl n o ck tk oi oc]. simpl in Ho. subst o.
  unfold create_handler. rewrite Hn, Hn'.
  destruct d as [d|]; run_world;
    destruct (JsString.includes (message e) (JsString.lit "图片文件"));
    repeat split; reflexivity.
Qed.

Lemma create_blank_name (name description : option jsstring)
    (req_file : option UploadedFile) (w : World) :
  match name with Some n => JsString.trim n = [] | None => True end ->
  create_handler name description req_file w
  = (Return (ValidationError name_required), w).
Proof.
  unfold create_handler, try_catch, ret. destruct name as [n|]; auto.
  intros Hn. rewrite Hn. simpl. now rewrite orb_true_r.
Qed.

Lemma create_no_file (name : jsstring) (description : option jsstring)
    (w : World) :
  JsString.trim name <> [] ->
  create_handler (Some name) description None w
  = (Return (ValidationError image_required), w).
Proof.
  intros Hn. apply truthy_nonempty in Hn.
  pose proof (trim_truthy name Hn) as Hn'.
  unfold create_handler, try_catch, ret. now rewrite Hn, Hn'.
Qed.

Lemma upload_accepts (file : UploadedFile) :
  JsString.startsWith (mimetype file) (JsString.lit "image/") = true ->
  (N.of_nat (List.length (buffer file)) <= fileSize)%N ->
  upload_single (Some file) = inr (Some file).
Proof.
  intros Hm Hs. unfold upload_single, fileFilter. rewrite Hm.
  apply N.ltb_ge in Hs. now rewrite Hs.
Qed.

(** C3.  A create request with a name that is not blank and an image the
    upload middleware accepts, while the store can be reached: the answer
    has status 201 and carries the stored item, whose [votes] is 0, whose
    generated identifier is sent as a non-empty string (24 digits), whose
    name is the trimmed input, whose description is the placeholder when
    none was supplied, whose [createdAt] and [updatedAt] are the two clock
    readings the handler takes, and whose image reference is
    [data:<mimetype>;base64,<payload in base64>]. *)
Theorem create_valid_item (name : jsstring) (description : option jsstring)
    (file : UploadedFile) (w : World) :
  JsString.trim name <> [] ->
  JsString.startsWith (mimetype file) (JsString.lit "image/") = true ->
  (N.of_nat (List.length (buffer file)) <= fileSize)%N ->
  outage w = None ->
  exists message id cp,
    fst (create_route (Some name) description (Some file) w)
    = Return (res_json 201 (CreatedJson true message id cp))
    /\ cps (snd (create_route (Some name) description (Some file) w))
       = cps w ++ [cp]
    /\ CP.votes cp = 0
    /\ CP._id cp = id /\ id = oids w (oid_count w)
    /\ ObjectId.toHexString id <> []
    /\ CP.name cp = JsString.trim name
    /\ CP.description cp = JsString.trim (js_or_lit description placeholder)
    /\ (description = None -> CP.description cp = placeholder)
    /\ CP.createdAt cp = clock w (ticks w)
    /\ CP.updatedAt cp = clock w (S (ticks w))
    /\ CP.imageUrl cp
       = JsString.lit "data:" ++ mimetype file ++ JsString.lit ";base64,"
         ++ base64 (buffer file).
Proof.
  intros Hn Hm Hs Ho. unfold create_route.
  rewrite (upload_accepts file Hm Hs), (create_run name description file w Hn Ho).
  cbv zeta. do 3 eexists. simpl.
  repeat split; try reflexivity.
  - intros E. pose proof (toHexString_length (oids w (oid_count w))) as L.
    rewrite E in L. discriminate.
  - intros ->. reflexivity.
Qed.

(** C10.  In a create request that is served, the stored description is the
    trimmed form of the placeholder when the supplied description is absent
    or empty, and the trimmed form of the supplied description otherwise:
    the placeholder is chosen before trimming, so a description made only
    of white space is stored as the empty string, which is not the
    placeholder. *)
Theorem create_description (name : jsstring) (description : option jsstring)
    (file : UploadedFile) (w : World) :
  JsString.trim name <> [] ->
  JsString.startsWith (mimetype file) (JsString.lit "image/") = true ->
  (N.of_nat (List.length (buffer file)) <= fileSize)%N ->
  outage w = None ->
  exists cp,
    cps (snd (create_route (Some name) description (Some file) w))
    = cps w ++ [cp]
    /\ CP.description cp
       = JsString.trim
           (match description with
            | None => placeholder
            | Some [] => placeholder
            | Some (c :: s) => c :: s
            end)
    /\ (forall s, description = Some s -> s <> [] ->
        Forall (fun c => JsString.is_space c = true) s ->
        CP.description cp = [] /\ CP.description cp <> placeholder).
Proof.
  intros Hn Hm Hs Ho. unfold create_route.
  rewrite (upload_accepts file Hm Hs), (create_run name description file w Hn Ho).
  cbv zeta. eexists. simpl. split; [reflexivity|]. split.
  - destruct description as [[|c s]|]; reflexivity.
  - intros s -> Hne Hsp. destruct s as [|c s]; [congruence|].
    simpl js_or_lit. rewrite (trim_spaces _ Hsp). split; [reflexivity|].
    discriminate.
Qed.

Lemma create_non_image (name description : option jsstring)
    (file : UploadedFile) (w : World) :
  JsString.startsWith (mimetype file) (JsString.lit "image/") = false ->
  create_route name description (Some file) w
  = (Return (res_json 500 (ErrorJson (JsString.lit "服务器内部错误"))), w).
Proof.
  intros Hm. unfold create_route, upload_single, fileFilter.
  now rewrite Hm.
Qed.

Lemma create_too_large (name description : option jsstring)
    (file : UploadedFile) (w : World) :
  JsString.startsWith (mimetype file) (JsString.lit "image/") = true ->
  (fileSize < N.of_nat (List.length (buffer file)))%N ->
  create_route name description (Some file) w
  = (Return (ValidationError too_large), w).
Proof.
  intros Hm Hs. unfold create_route, upload_single, fileFilter.
  rewrite Hm. apply N.ltb_lt in Hs. rewrite Hs.
  unfold error_middleware. cbn [multer_code].
  now rewrite JsString_eqb_refl.
Qed.

(** No rejected create request stores a document. *)
Lemma create_rejected_unchanged (name description : option jsstring)
    (image : option UploadedFile) (w : World) (r : Response) (w' : World) :
  create_route name description image w = (Return r, w') ->
  status r <> 201 -> cps w' = cps w /\ vote_logs w' = vote_logs w.
Proof.
  unfold create_route.
  destruct (upload_single image) as [err|req_file] eqn:Hup.
  { intros [= _ <-]. auto. }
  destruct name as [n|].
  2: { rewrite create_blank_name by exact I. intros [= _ <-]. auto. }
  destruct (list_eq_dec N.eq_dec (JsString.trim n) []) as [Hn|Hn].
  { rewrite create_blank_name by exact Hn. intros [= _ <-]. auto. }
  destruct req_file as [file|].
  2: { rewrite create_no_file by exact Hn. intros [= _ <-]. auto. }
  destruct (outage w) as [e|] eqn:Ho.
  - destruct (create_outage n description file w e Hn Ho) as (_ & Hc & Hl).
    intros E. rewrite E in Hc, Hl. auto.
  - rewrite (create_run n description file w Hn Ho). cbv zeta.
    intros [= <- _]. simpl. congruence.
Qed.

(** C5.  A create request whose upload is not an image is answered with
    status 500 by the error-handling middleware, not with the validation
    error of status 400: the error of the upload filter is handed to
    [next], so the handler, whose [catch] would turn a message containing
    the words of the filter's message into a 400, is never entered.
    Nothing is stored. *)
Theorem create_non_image_is_500 :
  let request :=
    create_route (Some (JsString.lit "A")) (Some (JsString.lit "d"))
      (Some text_plain) in
  fst (request world0)
  = Return (res_json 500 (ErrorJson (JsString.lit "服务器内部错误")))
  /\ snd (request world0) = world0
  /\ (exists err,
        fileFilter text_plain = Some err
        /\ JsString.includes (message err) (JsString.lit "图片文件") = true).
Proof.
  cbv zeta. rewrite create_non_image by reflexivity.
  repeat split. eexists. split; [reflexivity|]. vm_compute. reflexivity.
Qed.

(** ** List *)

Section Sorting.

Variable A : Type.
Variable leb : A -> A -> bool.
Hypothesis leb_total : forall a b, leb a b = true \/ leb b a = true.

Local Abbreviation R := (le_of leb).

Lemma insert_sorted_perm (x : A) (l : list A) :
  Permutation (insert_sorted leb x l) (x :: l).
Proof.
  induction l as [|y l IH]; simpl; [reflexivity|].
  destruct (leb x y); [reflexivity|].
  rewrite IH. apply perm_swap.
Qed.

Lemma cursor_sort_perm (l : list A) : Permutation (cursor_sort leb l) l.
Proof.
  induction l as [|x l IH]; simpl; [reflexivity|].
  unfold cursor_sort in IH. now rewrite insert_sorted_perm, IH.
Qed.

Lemma insert_sorted_hd (a x : A) (l : list A) :
  R a x -> HdRel R a l -> HdRel R a (insert_sorted leb x l).
Proof.
  intros Hax Hl. destruct l as [|y l]; simpl.
  - now constructor.
  - destruct (leb x y); constructor; auto. now inversion Hl.
Qed.

Lemma insert_sorted_sorted (x : A) (l : list A) :
  Sorted R l -> Sorted R (insert_sorted leb x l).
Proof.
  induction 1 as [|y l Hs IH Hhd]; simpl.
  - repeat constructor.
  - destruct (leb x y) eqn:Hxy.
    + repeat constructor; auto.
    + constructor; [exact IH|]. apply insert_sorted_hd; auto.
      destruct (leb_total x y) as [H|H]; [congruence|exact H].
Qed.

Lemma cursor_sort_sorted (l : list A) : Sorted R (cursor_sort leb l).
Proof.
  induction l as [|x l IH]; simpl; [constructor|].
  now apply insert_sorted_sorted.
Qed.

End Sorting.

Lemma StronglySorted_impl {A} (R S : A -> A -> Prop) (l : list A) :
  (forall a b, R a b -> S a b) -> StronglySorted R l -> StronglySorted S l.
Proof.
  intros H. induction 1 as [|a l _ IH Hall]; constructor; auto.
  revert Hall. apply Forall_impl. apply H.
Qed.

Lemma JsString_leb_total (a b : jsstring) :
  JsString.leb a b = true \/ JsString.leb b a = true.
Proof.
  revert b. induction a as [|x a IH]; intros [|y b]; simpl; auto.
  destruct (N.lt_trichotomy x y) as [H|[H|H]].
  - left. apply N.ltb_lt in H. now rewrite H.
  - subst y. rewrite N.ltb_irrefl, N.eqb_refl. simpl. apply IH.
  - right. apply N.ltb_lt in H. now rewrite H.
Qed.

Lemma JsString_leb_trans (a b c : jsstring) :
  JsString.leb a b = true -> JsString.leb b c = true ->
  JsString.leb a c = true.
Proof.
  revert b c. induction a as [|x a IH]; intros [|y b] [|z c]; simpl; auto;
    try discriminate.
  rewrite !orb_true_iff, !andb_true_iff, !N.ltb_lt, !N.eqb_eq.
  intros [H1|[H1 H1']] [H2|[H2 H2']].
  - left. lia.
  - left. lia.
  - left. lia.
  - right. split; [lia|]. eapply IH; eauto.
Qed.

Lemma field_leb_total (f : Field) (a b : CP.t) :
  field_leb f a b = true \/ field_leb f b a = true.
Proof.
  destruct f; simpl; try apply JsString_leb_total;
    rewrite !Z.leb_le; lia.
Qed.

Lemma field_leb_trans (f : Field) (a b c : CP.t) :
  field_leb f a b = true -> field_leb f b c = true -> field_leb f a c = true.
Proof.
  destruct f; simpl; try apply JsString_leb_trans;
    rewrite !Z.leb_le; lia.
Qed.

Lemma sort_leb_total (o : SortOption) (a b : CP.t) :
  sort_leb o a b = true \/ sort_leb o b a = true.
Proof. unfold sort_leb. destruct (snd o <? 0); apply field_leb_total. Qed.

Lemma in_order_trans (o : SortOption) (a b c : CP.t) :
  in_order o a b -> in_order o b c -> in_order o a c.
Proof.
  unfold in_order, le_of, sort_leb. destruct (snd o <? 0); intros H1 H2.
  - exact (field_leb_trans _ _ _ _ H2 H1).
  - exact (field_leb_trans _ _ _ _ H1 H2).
Qed.

(** What [cursor_sort] returns is in the order asked for, every earlier
    document against every later one. *)
Lemma cursor_sort_in_order (o : SortOption) (l : list CP.t) :
  StronglySorted (in_order o) (cursor_sort (sort_leb o) l).
Proof.
  apply Sorted_StronglySorted.
  - intros a b c. apply in_order_trans.
  - apply cursor_sort_sorted. apply sort_leb_total.
Qed.

Lemma sortOption_votes :
  sortOption_of (QString (JsString.lit "votes")) = (f_votes, -1).
Proof. vm_compute. reflexivity. Qed.

Lemma sortOption_name :
  sortOption_of (QString (JsString.lit "name")) = (f_name, 1).
Proof. vm_compute. reflexivity. Qed.

Lemma sortOption_newest :
  sortOption_of (QString (JsString.lit "newest")) = (f_createdAt, -1).
Proof. vm_compute. reflexivity. Qed.

Lemma sortOption_default (sort : QueryValue) :
  sort <> QString (JsString.lit "newest") ->
  sort <> QString (JsString.lit "name") ->
  sortOption_of sort = (f_votes, -1).
Proof.
  intros H1 H2. destruct sort as [|s|]; try reflexivity.
  unfold sortOption_of.
  destruct (JsString.eqb s (JsString.lit "newest")) eqn:E1.
  { apply JsString_eqb_eq in E1. congruence. }
  destruct (JsString.eqb s (JsString.lit "name")) eqn:E2.
  { apply JsString_eqb_eq in E2. congruence. }
  now destruct (JsString.eqb s (JsString.lit "votes")).
Qed.

Lemma list_run (query_sort : QueryValue) (w : World) :
  outage w = None ->
  list_handler query_sort w
  = (Return (res_json 200
               (CpsJson (cursor_sort (sort_leb (sortOption_for query_sort))
                           (cps w)))),
     connected w).
Proof.
  intros Ho. destruct w as [d c vl n o ck tk oi oc]. simpl in Ho. subst o.
  unfold list_handler, sortOption_for.
  destruct d as [d|]; run_world; reflexivity.
Qed.

Lemma sortOption_for_default (sort : QueryValue) :
  sort <> QString (JsString.lit "newest") ->
  sort <> QString (JsString.lit "name") ->
  sortOption_for sort = (f_votes, -1).
Proof.
  intros H1 H2. unfold sortOption_for. destruct sort as [|s|].
  - apply sortOption_votes.
  - now apply sortOption_default.
  - reflexivity.
Qed.

(** C4.  While the store can be reached, the list endpoint returns every
    stored item, once each (no pagination): by non-increasing [votes] for
    [sort=votes], by non-decreasing name in lexicographic order for
    [sort=name], by non-increasing [createdAt] for [sort=newest]; and for
    any other value of [sort], or none, exactly what [sort=votes]
    returns. *)
Theorem list_sorted (sort : QueryValue) (w : World) :
  outage w = None ->
  exists items,
    fst (list_handler sort w) = Return (res_json 200 (CpsJson items))
    /\ Permutation items (cps w)
    /\ (sort = QString (JsString.lit "votes") ->
        StronglySorted votes_desc items)
    /\ (sort = QString (JsString.lit "name") ->
        StronglySorted name_asc items)
    /\ (sort = QString (JsString.lit "newest") ->
        StronglySorted newest_first items)
    /\ (sort <> QString (JsString.lit "newest") ->
        sort <> QString (JsString.lit "name") ->
        StronglySorted votes_desc items
        /\ fst (list_handler sort w)
           = fst (list_handler (QString (JsString.lit "votes")) w)).
Proof.
  intros Ho. rewrite (list_run sort w Ho). eexists.
  split; [reflexivity|]. split; [apply cursor_sort_perm|].
  pose proof (cursor_sort_in_order (sortOption_for sort) (cps w)) as Hs.
  assert (Hv : sortOption_for sort = (f_votes, -1) ->
               StronglySorted votes_desc
                 (cursor_sort (sort_leb (sortOption_for sort)) (cps w))).
  { intros E. rewrite E in *. revert Hs. apply StronglySorted_impl.
    intros a b. unfold in_order, le_of, sort_leb, votes_desc. simpl.
    now rewrite Z.leb_le. }
  repeat split.
  - intros ->. apply Hv. apply sortOption_votes.
  - intros ->. unfold sortOption_for in *. rewrite sortOption_name in *.
    revert Hs. apply StronglySorted_impl. intros a b H. exact H.
  - intros ->. unfold sortOption_for in *. rewrite sortOption_newest in *.
    revert Hs. apply StronglySorted_impl.
    intros a b. unfold in_order, le_of, sort_leb, newest_first. simpl.
    now rewrite Z.leb_le.
  - apply Hv. now apply sortOption_for_default.
  - rewrite (list_run (QString (JsString.lit "votes")) w Ho). simpl.
    rewrite (sortOption_for_default sort) by assumption.
    unfold sortOption_for. now rewrite sortOption_votes.
Qed.

(** ** The system *)

Section SystemFacts.

Variable ObjectId_isValid : jsstring -> bool.
Variable ObjectId_new : jsstring -> ObjectId.t.
Variable LocalTZA : Z.

Local Abbreviation app' := (app ObjectId_isValid ObjectId_new LocalTZA).
Local Abbreviation step' := (step ObjectId_isValid ObjectId_new LocalTZA).
Local Abbreviation reachable' :=
  (reachable ObjectId_isValid ObjectId_new LocalTZA).
Local Abbreviation vote :=
  (vote_handler ObjectId_isValid ObjectId_new LocalTZA).
Local Abbreviation get := (get_handler ObjectId_isValid ObjectId_new).

(** Case analysis on the fields a handler reads before it first touches
    the collections. *)
Ltac by_cases w :=
  let d := fresh "d" in
  let o := fresh "o" in
  destruct w as [d ? ? ? o ? ? ? ?];
  destruct d as [?|]; destruct o as [?|]; run_world.

Lemma health_world (w : World) :
  exists r,
    fst (health_handler w) = Return r
    /\ cps (snd (health_handler w)) = cps w
    /\ vote_logs (snd (health_handler w)) = vote_logs w
    /\ (db w <> None -> db (snd (health_handler w)) = db w
                        /\ connections (snd (health_handler w))
                           = connections w)
    /\ (outage w <> None -> status r = 500).
Proof.
  unfold health_handler. by_cases w; eexists; repeat split;
    try reflexivity; simpl; congruence.
Qed.

Lemma list_world (sort : QueryValue) (w : World) :
  exists r,
    fst (list_handler sort w) = Return r
    /\ cps (snd (list_handler sort w)) = cps w
    /\ vote_logs (snd (list_handler sort w)) = vote_logs w
    /\ (db w <> None -> db (snd (list_handler sort w)) = db w
                        /\ connections (snd (list_handler sort w))
                           = connections w)
    /\ (outage w <> None -> status r = 500).
Proof.
  unfold list_handler. by_cases w; eexists; repeat split;
    try reflexivity; simpl; congruence.
Qed.

Lemma get_world (id : jsstring) (w : World) :
  exists r,
    fst (get id w) = Return r
    /\ cps (snd (get id w)) = cps w
    /\ vote_logs (snd (get id w)) = vote_logs w
    /\ (db w <> None -> db (snd (get id w)) = db w
                        /\ connections (snd (get id w)) = connections w)
    /\ (ObjectId_isValid id = true -> outage w <> None -> status r = 500).
Proof.
  unfold get_handler. destruct (ObjectId_isValid id).
  - by_cases w; try (eexists; repeat split; try reflexivity; simpl;
                     congruence).
    all: match goal with |- context [find ?p ?l] => destruct (find p l) end.
    all: eexists; repeat split; try reflexivity; simpl; congruence.
  - unfold try_catch, ret. simpl. eexists. repeat split; congruence.
Qed.

Lemma vote_world (id : jsstring) (ip forwarded : option jsstring)
    (w : World) :
  exists r,
    fst (vote id ip forwarded w) = Return r
    /\ (db w <> None -> db (snd (vote id ip forwarded w)) = db w
                        /\ connections (snd (vote id ip forwarded w))
                           = connections w)
    /\ (ObjectId_isValid id = true -> outage w <> None -> status r = 500).
Proof.
  destruct (ObjectId_isValid id) eqn:Hv.
  2: { rewrite (vote_invalid _ _ _ id ip forwarded w Hv). simpl.
       eexists. repeat split; congruence. }
  destruct (outage w) as [e|] eqn:Ho.
  - destruct (vote_outage _ ObjectId_new LocalTZA id ip forwarded w e Hv Ho)
      as (Hr & _ & _).
    rewrite Hr. eexists. split; [reflexivity|]. split; [|reflexivity].
    revert Ho. unfold vote_handler. rewrite Hv.
    destruct w as [d ? ? ? o ? ? ? ?]. simpl. intros ->.
    destruct d as [?|]; run_world; [auto|congruence].
  - rewrite (vote_run _ _ _ id ip forwarded w Hv Ho). cbv zeta.
    assert (Hd : db w <> None ->
                 db (connected w) = db w
                 /\ connections (connected w) = connections w).
    { unfold connected. destruct (db w) eqn:E; [rewrite E; auto|congruence]. }
    destruct (find (vote_filter _ _ _) (vote_logs w)).
    + eexists. simpl. repeat split; try apply Hd; auto; congruence.
    + destruct (find (has_id _) (cps w)).
      * eexists. simpl. repeat split; try apply Hd; auto; congruence.
      * eexists. simpl. repeat split; try apply Hd; auto; congruence.
Qed.

Lemma vote_evolves (id : jsstring) (ip forwarded : option jsstring)
    (w : World) :
  let w' := snd (vote id ip forwarded w) in
  (cps w' = cps w /\ vote_logs w' = vote_logs w)
  \/ exists l1 cp l2 d log,
       cps w = l1 ++ cp :: l2 /\ cps w' = l1 ++ voted d cp :: l2
       /\ vote_logs w' = vote_logs w ++ [log]
       /\ VoteLog.cpId log = CP._id cp.
Proof.
  cbv zeta. destruct (ObjectId_isValid id) eqn:Hv.
  2: { rewrite (vote_invalid _ _ _ id ip forwarded w Hv). auto. }
  destruct (outage w) as [e|] eqn:Ho.
  { left. now destruct (vote_outage _ ObjectId_new LocalTZA
                          id ip forwarded w e Hv Ho). }
  rewrite (vote_run _ _ _ id ip forwarded w Hv Ho). cbv zeta.
  destruct (find (vote_filter _ _ _) (vote_logs w)).
  { left. simpl. now rewrite connected_cps, connected_vote_logs. }
  destruct (find (has_id _) (cps w)) as [cp|] eqn:Hf.
  2: { left. simpl. now rewrite connected_vote_logs. }
  right.
  destruct (update_first_some _ (voted (clock w (S (ticks w)))) _ _ Hf)
    as (l1 & l2 & Hw & _ & Hx & Hu).
  exists l1, cp, l2, (clock w (S (ticks w))),
    (new_log (ObjectId_new id) ip forwarded w).
  simpl. rewrite Hu. simpl. repeat split; auto.
  unfold has_id in Hx. now apply ObjectId_eqb_eq in Hx.
Qed.

Lemma create_world (name description : option jsstring)
    (image : option UploadedFile) (w : World) :
  let w' := snd (create_route name description image w) in
  exists r,
    fst (create_route name description image w) = Return r
    /\ vote_logs w' = vote_logs w
    /\ (cps w' = cps w \/ exists cp, CP.votes cp = 0 /\ cps w' = cps w ++ [cp])
    /\ (db w <> None -> db w' = db w /\ connections w' = connections w).
Proof.
  cbv zeta. unfold create_route.
  destruct (upload_single image) as [err|req_file].
  { eexists. simpl. repeat split; auto. }
  destruct name as [n|].
  2: { rewrite create_blank_name by exact I. eexists. simpl.
       repeat split; auto. }
  destruct (list_eq_dec N.eq_dec (JsString.trim n) []) as [Hn|Hn].
  { rewrite create_blank_name by exact Hn. eexists. simpl.
    repeat split; auto. }
  destruct req_file as [file|].
  2: { rewrite create_no_file by exact Hn. eexists. simpl.
       repeat split; auto. }
  destruct (outage w) as [e|] eqn:Ho.
  - destruct (create_outage n description file w e Hn Ho) as (Hr & Hc & Hl).
    rewrite Hr. eexists. split; [reflexivity|]. split; [exact Hl|].
    split; [now left|].
    revert Ho. unfold create_handler.
    apply truthy_nonempty in Hn. rewrite Hn, (trim_truthy n Hn).
    destruct w as [d ? ? ? o ? ? ? ?]. simpl. intros ->.
    destruct d as [?|]; run_world; [|congruence].
    destruct (JsString.includes _ _); auto.
  - rewrite (create_run n description file w Hn Ho). cbv zeta.
    eexists. simpl. split; [reflexivity|].
    rewrite connected_vote_logs. simpl. split; [reflexivity|].
    split; [right; eexists; split; [|reflexivity]; reflexivity|].
    intros Hd. unfold connected. simpl.
    destruct (db w) eqn:E; [simpl; rewrite E; auto|congruence].
Qed.

(** Every request is answered: no handler lets an error escape. *)
Lemma app_responds (req : Request) (w : World) :
  exists r, fst (app' req w) = Return r.
Proof.
  destruct req as [|sort|name description image|id ip forwarded|id|]; simpl.
  - destruct (health_world w) as (r & H & _). eauto.
  - destruct (list_world sort w) as (r & H & _). eauto.
  - destruct (create_world name description image w) as (r & H & _). eauto.
  - destruct (vote_world id ip forwarded w) as (r & H & _). eauto.
  - destruct (get_world id w) as (r & H & _). eauto.
  - eexists. reflexivity.
Qed.

Lemma app_evolves (req : Request) (w : World) :
  evolves w (snd (app' req w)).
Proof.
  destruct req as [|sort|name description image|id ip forwarded|id|]; simpl.
  - destruct (health_world w) as (r & _ & Hc & Hl & _). now apply ev_same.
  - destruct (list_world sort w) as (r & _ & Hc & Hl & _). now apply ev_same.
  - destruct (create_world name description image w)
      as (r & _ & Hl & [Hc|(cp & Hv & Hc)] & _).
    + now apply ev_same.
    + now apply ev_create with cp.
  - destruct (vote_evolves id ip forwarded w)
      as [[Hc Hl]|(l1 & cp & l2 & d & log & H1 & H2 & H3 & H4)].
    + now apply ev_same.
    + now apply ev_vote with l1 l2 cp d log.
  - destruct (get_world id w) as (r & _ & Hc & Hl & _). now apply ev_same.
  - now apply ev_same.
Qed.

Lemma step_evolves (w w' : World) : step' w w' -> evolves w w'.
Proof.
  intros [req w0|w0 w0' Hd Hc Hl Hn]; [apply app_evolves|now apply ev_same].
Qed.

Lemma evolves_votes_nonneg (w w' : World) :
  evolves w w' -> votes_nonneg w -> votes_nonneg w'.
Proof.
  unfold votes_nonneg.
  intros [Hc _|cp Hv Hc _|l1 l2 cp d log Hw Hc _ _] H; rewrite Hc.
  - exact H.
  - apply Forall_app. split; [exact H|]. constructor; [lia|constructor].
  - rewrite Hw in H. apply Forall_app in H. destruct H as [H1 H2].
    apply Forall_app. split; [exact H1|].
    inversion H2 as [|x l Hx Hl]; subst. constructor; [simpl; lia|exact Hl].
Qed.

Lemma evolves_logs_refer (w w' : World) :
  evolves w w' -> logs_refer w -> logs_refer w'.
Proof.
  unfold logs_refer.
  intros [Hc Hl|cp Hv Hc Hl|l1 l2 cp d log Hw Hc Hl Hlog] H l;
    rewrite Hc, Hl.
  - apply H.
  - intros Hin. destruct (H l Hin) as (x & Hx & Hid).
    exists x. split; [apply in_or_app; now left|exact Hid].
  - rewrite Hw in H. intros Hin. apply in_app_or in Hin.
    assert (Hkeep : forall x, In x (l1 ++ cp :: l2) ->
                    exists y, In y (l1 ++ voted d cp :: l2)
                              /\ CP._id y = CP._id x).
    { intros x Hx. apply in_app_or in Hx. destruct Hx as [Hx|[<-|Hx]].
      - exists x. split; [apply in_or_app; now left|reflexivity].
      - exists (voted d cp). split; [|reflexivity].
        apply in_or_app. right. now left.
      - exists x. split; [|reflexivity].
        apply in_or_app. right. now right. }
    destruct Hin as [Hin|[<-|[]]].
    + destruct (H l Hin) as (x & Hx & Hid).
      destruct (Hkeep x Hx) as (y & Hy & Hyx). exists y. split; congruence.
    + destruct (Hkeep cp) as (y & Hy & Hyx).
      { apply in_or_app. right. now left. }
      exists y. split; congruence.
Qed.

Lemma reachable_invariants (w : World) :
  reachable' w -> votes_nonneg w /\ logs_refer w.
Proof.
  induction 1 as [w Hc Hl|w w' _ [IH1 IH2] Hs].
  - unfold votes_nonneg, logs_refer. rewrite Hc, Hl. split.
    + constructor.
    + intros l [].
  - apply step_evolves in Hs. split.
    + now apply evolves_votes_nonneg with w.
    + now apply evolves_logs_refer with w.
Qed.

End SystemFacts.

Section SystemClaims.

Variable ObjectId_isValid : jsstring -> bool.
Variable ObjectId_new : jsstring -> ObjectId.t.
Variable LocalTZA : Z.

Local Abbreviation app' := (app ObjectId_isValid ObjectId_new LocalTZA).
Local Abbreviation step' := (step ObjectId_isValid ObjectId_new LocalTZA).
Local Abbreviation reachable' :=
  (reachable ObjectId_isValid ObjectId_new LocalTZA).
Local Abbreviation vote :=
  (vote_handler ObjectId_isValid ObjectId_new LocalTZA).

(** C6.  In every state of the system, a vote on a well-formed identifier
    that no stored item has is answered, while the store can be reached,
    with the not-found error, status 404. *)
Theorem vote_unknown_item id ip forwarded (w : World) :
  reachable' w ->
  ObjectId_isValid id = true -> outage w = None ->
  (forall cp, In cp (cps w) -> CP._id cp <> ObjectId_new id) ->
  fst (vote id ip forwarded w) = Return NotFoundError_vote
  /\ status NotFoundError_vote = 404.
Proof.
  intros Hreach Hv Ho Hnone. split; [|reflexivity].
  destruct (reachable_invariants _ _ _ w Hreach) as [_ Hrefer].
  rewrite (vote_run _ _ _ id ip forwarded w Hv Ho). cbv zeta.
  destruct (find (vote_filter _ _ _) (vote_logs w)) as [l|] eqn:Hl.
  - exfalso. apply find_some in Hl. destruct Hl as [Hin Hb].
    apply vote_filter_blocks in Hb. destruct Hb as (Hc & _ & _).
    destruct (Hrefer l Hin) as (cp & Hcp & Hid).
    apply (Hnone cp Hcp). congruence.
  - destruct (find (has_id _) (cps w)) as [cp|] eqn:Hf; [|reflexivity].
    exfalso. apply find_some in Hf. destruct Hf as [Hin Hid].
    unfold has_id in Hid. apply ObjectId_eqb_eq in Hid.
    exact (Hnone cp Hin Hid).
Qed.

(** C7.  In every state of the system every stored item has [votes >= 0].
    A request that is not a vote leaves every stored item as it is and can
    only add items, which start with 0 votes; a vote leaves the items as
    they are or raises the [votes] of one item by exactly 1; so no
    transition lowers a count, and the states after a transition satisfy
    the invariant again. *)
Theorem votes_never_negative (w : World) :
  reachable' w ->
  votes_nonneg w
  /\ (forall req,
        is_vote req = false ->
        exists extra,
          cps (snd (app' req w)) = cps w ++ extra
          /\ Forall (fun cp => CP.votes cp = 0) extra)
  /\ (forall req,
        is_vote req = true ->
        cps (snd (app' req w)) = cps w
        \/ exists l1 cp l2 d,
             cps w = l1 ++ cp :: l2
             /\ cps (snd (app' req w)) = l1 ++ voted d cp :: l2
             /\ CP.votes (voted d cp) = CP.votes cp + 1)
  /\ (forall w', step' w w' -> votes_nonneg w').
Proof.
  intros Hreach.
  destruct (reachable_invariants _ _ _ w Hreach) as [Hnn _].
  split; [exact Hnn|]. split; [|split].
  - intros req Hreq.
    destruct (app_evolves ObjectId_isValid ObjectId_new LocalTZA req w)
      as [Hc _|cp Hv Hc _|l1 l2 cp d log Hw Hc Hl _].
    + exists []. rewrite Hc, app_nil_r. split; [reflexivity|constructor].
    + exists [cp]. split; [exact Hc|]. repeat constructor. exact Hv.
    + exfalso. destruct req; try discriminate; simpl in Hl.
      * destruct (health_world w) as (_ & _ & _ & E & _).
        rewrite E in Hl. apply (f_equal (@List.length _)) in Hl.
        rewrite length_app in Hl. simpl in Hl. lia.
      * destruct (list_world sort w) as (_ & _ & _ & E & _).
        rewrite E in Hl. apply (f_equal (@List.length _)) in Hl.
        rewrite length_app in Hl. simpl in Hl. lia.
      * destruct (create_world name description image w) as (_ & _ & E & _).
        rewrite E in Hl. apply (f_equal (@List.length _)) in Hl.
        rewrite length_app in Hl. simpl in Hl. lia.
      * destruct (get_world ObjectId_isValid ObjectId_new id w)
          as (_ & _ & _ & E & _).
        rewrite E in Hl. apply (f_equal (@List.length _)) in Hl.
        rewrite length_app in Hl. simpl in Hl. lia.
      * apply (f_equal (@List.length _)) in Hl.
        rewrite length_app in Hl. simpl in Hl. lia.
  - intros req Hreq. destruct req; try discriminate. simpl.
    destruct (vote_evolves ObjectId_isValid ObjectId_new LocalTZA
                id ip x_forwarded_for w)
      as [[Hc _]|(l1 & cp & l2 & d & log & H1 & H2 & _)].
    + now left.
    + right. exists l1, cp, l2, d. repeat split; assumption.
  - intros w' Hs. apply evolves_votes_nonneg with w; [|exact Hnn].
    exact (step_evolves _ _ _ w w' Hs).
Qed.

Lemma connect_result (w w1 : World) (d : Db) :
  connectToDatabase w = (Return d, w1) -> db w1 = Some d.
Proof.
  destruct (db w) as [d0|] eqn:Hd.
  - rewrite (connect_cached w d0 Hd). now intros [= <- <-].
  - destruct (outage w) as [e|] eqn:Ho.
    + rewrite (connect_fail w e Hd Ho). discriminate.
    + rewrite (connect_run w Ho). unfold handle, connected. rewrite Hd.
      now intros [= <- <-].
Qed.

Lemma step_keeps_db (w w' : World) (d : Db) :
  step' w w' -> db w = Some d ->
  db w' = Some d /\ connections w' = connections w.
Proof.
  intros [req w0|w0 w0' Hd Hc Hl Hn] H.
  2: { split; congruence. }
  assert (Hne : db w0 <> None) by congruence.
  destruct req as [|sort|name description image|id ip forwarded|id|]; simpl.
  - destruct (health_world w0) as (_ & _ & _ & _ & E & _).
    destruct (E Hne). split; congruence.
  - destruct (list_world sort w0) as (_ & _ & _ & _ & E & _).
    destruct (E Hne). split; congruence.
  - destruct (create_world name description image w0) as (_ & _ & _ & _ & E).
    destruct (E Hne). split; congruence.
  - destruct (vote_world ObjectId_isValid ObjectId_new LocalTZA
                id ip forwarded w0) as (_ & _ & E & _).
    destruct (E Hne). split; congruence.
  - destruct (get_world ObjectId_isValid ObjectId_new id w0)
      as (_ & _ & _ & _ & E & _).
    destruct (E Hne). split; congruence.
  - auto.
Qed.

Lemma steps_keep_db (w w' : World) (d : Db) :
  clos_refl_trans World step' w w' -> db w = Some d ->
  db w' = Some d /\ connections w' = connections w.
Proof.
  induction 1 as [w w' Hs|w|w w' w'' _ IH1 _ IH2]; intros H.
  - now apply step_keeps_db.
  - auto.
  - destruct (IH1 H) as [H1 H2]. destruct (IH2 H1) as [H3 H4].
    split; congruence.
Qed.

(** C8.  Once a call of [connectToDatabase] has returned a handle, that
    handle is stored in [db], and every later call, after any number of
    transitions of the system, returns the same handle and leaves the world
    as it is: no further connection is established.  When no handle is
    stored and the store cannot be reached, the call throws, nothing is
    stored, and each endpoint that reaches the call answers with status
    500 (for the create endpoint: when the message of the error does not
    contain the words its handler looks for); every request is answered. *)
Theorem connect_idempotent (w w1 : World) (d : Db) :
  connectToDatabase w = (Return d, w1) ->
  db w1 = Some d
  /\ connectToDatabase w1 = (Return d, w1)
  /\ (forall w2, clos_refl_trans World step' w1 w2 ->
        connectToDatabase w2 = (Return d, w2)
        /\ connections w2 = connections w1)
  /\ (forall w0 e, db w0 = None -> outage w0 = Some e ->
        connectToDatabase w0 = (Throw e, w0)
        /\ status_of (app' GET_health w0) = Some 500
        /\ (forall sort, status_of (app' (GET_cps sort) w0) = Some 500)
        /\ (forall id ip forwarded, ObjectId_isValid id = true ->
              status_of (app' (POST_cps_vote id ip forwarded) w0) = Some 500)
        /\ (forall id, ObjectId_isValid id = true ->
              status_of (app' (GET_cps_id id) w0) = Some 500)
        /\ (forall name description file,
              JsString.trim name <> [] ->
              upload_single (Some file) = inr (Some file) ->
              JsString.includes (message e) (JsString.lit "图片文件") = false ->
              status_of (app' (POST_cps (Some name) description (Some file)) w0)
              = Some 500))
  /\ (forall req w0, exists r, fst (app' req w0) = Return r).
Proof.
  intros Hc. pose proof (connect_result w w1 d Hc) as Hd.
  split; [exact Hd|]. split; [now apply connect_cached|]. split; [|split].
  - intros w2 Hs. destruct (steps_keep_db w1 w2 d Hs Hd) as [H1 H2].
    split; [now apply connect_cached|exact H2].
  - intros w0 e Hn Ho.
    assert (Hout : outage w0 <> None) by congruence.
    split; [now apply connect_fail|]. unfold status_of, app.
    split; [|split; [|split; [|split]]].
    + destruct (health_world w0) as (r & -> & _ & _ & _ & E). now rewrite E.
    + intros sort.
      destruct (list_world sort w0) as (r & -> & _ & _ & _ & E).
      now rewrite E.
    + intros id ip forwarded Hv.
      destruct (vote_world ObjectId_isValid ObjectId_new LocalTZA
                  id ip forwarded w0) as (r & -> & _ & E).
      now rewrite E.
    + intros id Hv.
      destruct (get_world ObjectId_isValid ObjectId_new id w0)
        as (r & -> & _ & _ & _ & E).
      now rewrite E.
    + intros name description file Hname Hup Hmsg. unfold create_route.
      rewrite Hup.
      destruct (create_outage name description file w0 e Hname Ho)
        as (-> & _). now rewrite Hmsg.
  - intros req w0. apply app_responds.
Qed.

End SystemClaims.

(** ** The scenario of the specification, run *)

Example scenario :
  cps world1 = [item1]
  /\ status_of (sample_app
                  (POST_cps (Some (JsString.lit " A ")) (Some (JsString.lit "d"))
                     (Some jpeg_1)) world0) = Some 201
  /\ fst (sample_app (POST_cps_vote sample_id (Some sample_ip) None) world1)
     = Return (res_json 200
                 (VotedJson true (JsString.lit "投票成功！感谢您的支持！") 1))
  /\ fst (sample_app (POST_cps_vote sample_id (Some sample_ip) None) world2)
     = Return DuplicateVoteError
  /\ fst (sample_app (GET_cps_id sample_id) world2)
     = Return (res_json 200 (CpJson (voted 1709287200003 item1)))
  /\ status_of (sample_app (POST_cps_vote sample_id (Some sample_ip) None)
                  (next_day world2)) = Some 200
  /\ status_of (sample_app (POST_cps_vote other_id (Some sample_ip) None)
                  world2) = Some 404.
Proof. vm_compute. repeat split; reflexivity. Qed.

(** ** The theorems at work on the scenario *)

Lemma vote_duplicate_iff_witness :
  hex24_isValid sample_id = true /\ outage world2 = None
  /\ (fst (vote_handler hex24_isValid hex24_new 0 sample_id (Some sample_ip)
             None world2) = Return DuplicateVoteError
      <-> exists l, In l (vote_logs world2)
            /\ blocks (hex24_new sample_id) (voterIp_of (Some sample_ip) None)
                 (setHours_0_0_0_0 0 (clock world2 (ticks world2))) l).
Proof.
  assert (Hv : hex24_isValid sample_id = true) by (vm_compute; reflexivity).
  assert (Ho : outage world2 = None) by (vm_compute; reflexivity).
  split; [exact Hv|]. split; [exact Ho|].
  exact (proj1 (vote_duplicate_iff hex24_isValid hex24_new 0 sample_id
                  (Some sample_ip) None world2 Hv Ho)).
Defined.

Lemma vote_success_effect_witness :
  hex24_isValid sample_id = true /\ outage world1 = None
  /\ cps world1 = [] ++ item1 :: []
  /\ fst (vote_handler hex24_isValid hex24_new 0 sample_id (Some sample_ip)
            None world1)
     = Return (res_json 200
                 (VotedJson true (JsString.lit "投票成功！感谢您的支持！")
                    (CP.votes item1 + 1)))
  /\ cps world2 = [] ++ voted (clock world1 (S (ticks world1))) item1 :: []
  /\ vote_logs world2
     = vote_logs world1
       ++ [new_log (hex24_new sample_id) (Some sample_ip) None world1].
Proof.
  assert (Hv : hex24_isValid sample_id = true) by (vm_compute; reflexivity).
  assert (Ho : outage world1 = None) by (vm_compute; reflexivity).
  assert (Hw : cps world1 = [] ++ item1 :: []) by (vm_compute; reflexivity).
  assert (Hid : CP._id item1 = hex24_new sample_id)
    by (vm_compute; reflexivity).
  assert (Hfree : forall l, In l (vote_logs world1) ->
            ~ blocks (hex24_new sample_id) (voterIp_of (Some sample_ip) None)
                (setHours_0_0_0_0 0 (clock world1 (ticks world1))) l).
  { intros l H. vm_compute in H. destruct H. }
  assert (Hl1 : forall y : CP.t, In y [] -> CP._id y <> hex24_new sample_id).
  { intros y []. }
  destruct (vote_success_effect hex24_isValid hex24_new 0 sample_id
              (Some sample_ip) None world1 [] item1 [] Hv Ho Hfree Hw Hid Hl1)
    as (H1 & H2 & _ & _ & _ & H3 & _).
  repeat split; assumption.
Defined.

Lemma vote_failure_unchanged_witness :
  fst (vote_handler hex24_isValid hex24_new 0 sample_id (Some sample_ip)
         None world2) = Return DuplicateVoteError
  /\ cps (snd (vote_handler hex24_isValid hex24_new 0 sample_id
                 (Some sample_ip) None world2)) = cps world2
  /\ vote_logs (snd (vote_handler hex24_isValid hex24_new 0 sample_id
                       (Some sample_ip) None world2)) = vote_logs world2.
Proof.
  assert (H : fst (vote_handler hex24_isValid hex24_new 0 sample_id
                     (Some sample_ip) None world2)
              = Return DuplicateVoteError) by (vm_compute; reflexivity).
  split; [exact H|].
  exact (vote_failure_unchanged hex24_isValid hex24_new 0 sample_id
           (Some sample_ip) None world2 (or_intror (or_introl H))).
Defined.

Lemma create_valid_item_witness :
  JsString.trim (JsString.lit " A ") <> []
  /\ JsString.startsWith (mimetype jpeg_1) (JsString.lit "image/") = true
  /\ (N.of_nat (List.length (buffer jpeg_1)) <= fileSize)%N
  /\ outage world0 = None
  /\ exists message id cp,
       fst (create_route (Some (JsString.lit " A ")) (Some (JsString.lit "d"))
              (Some jpeg_1) world0)
       = Return (res_json 201 (CreatedJson true message id cp))
       /\ CP.votes cp = 0 /\ ObjectId.toHexString id <> [].
Proof.
  assert (Hn : JsString.trim (JsString.lit " A ") <> [])
    by (vm_compute; discriminate).
  assert (Hm : JsString.startsWith (mimetype jpeg_1) (JsString.lit "image/")
               = true) by (vm_compute; reflexivity).
  assert (Hs : (N.of_nat (List.length (buffer jpeg_1)) <= fileSize)%N)
    by (vm_compute; discriminate).
  assert (Ho : outage world0 = None) by reflexivity.
  repeat (split; [assumption|]).
  destruct (create_valid_item (JsString.lit " A ") (Some (JsString.lit "d"))
              jpeg_1 world0 Hn Hm Hs Ho)
    as (message & id & cp & H1 & _ & H2 & _ & _ & H3 & _).
  exists message, id, cp. repeat split; assumption.
Defined.

Lemma create_description_witness :
  JsString.trim (JsString.lit "A") <> []
  /\ JsString.startsWith (mimetype jpeg_1) (JsString.lit "image/") = true
  /\ (N.of_nat (List.length (buffer jpeg_1)) <= fileSize)%N
  /\ outage world0 = None
  /\ exists cp,
       cps (snd (create_route (Some (JsString.lit "A"))
                   (Some (JsString.lit "  ")) (Some jpeg_1) world0))
       = cps world0 ++ [cp]
       /\ CP.description cp = [].
Proof.
  assert (Hn : JsString.trim (JsString.lit "A") <> [])
    by (vm_compute; discriminate).
  assert (Hm : JsString.startsWith (mimetype jpeg_1) (JsString.lit "image/")
               = true) by (vm_compute; reflexivity).
  assert (Hs : (N.of_nat (List.length (buffer jpeg_1)) <= fileSize)%N)
    by (vm_compute; discriminate).
  assert (Ho : outage world0 = None) by reflexivity.
  repeat (split; [assumption|]).
  destruct (create_description (JsString.lit "A") (Some (JsString.lit "  "))
              jpeg_1 world0 Hn Hm Hs Ho) as (cp & H1 & _ & H2).
  exists cp. split; [exact H1|].
  refine (proj1 (H2 (JsString.lit "  ") eq_refl _ _)).
  - vm_compute. discriminate.
  - vm_compute. repeat constructor.
Defined.

Lemma list_sorted_witness :
  outage shelf = None
  /\ map CP.name (cps shelf)
     = [JsString.lit "B"; JsString.lit "A"; JsString.lit "C"]
  /\ (exists items,
        fst (list_handler (QString (JsString.lit "votes")) shelf)
        = Return (res_json 200 (CpsJson items))
        /\ map CP.name items
           = [JsString.lit "A"; JsString.lit "C"; JsString.lit "B"]
        /\ map CP.votes items = [2; 1; 0]
        /\ StronglySorted votes_desc items
        /\ Permutation items (cps shelf))
  /\ (exists items,
        fst (list_handler (QString (JsString.lit "name")) shelf)
        = Return (res_json 200 (CpsJson items))
        /\ map CP.name items
           = [JsString.lit "A"; JsString.lit "B"; JsString.lit "C"]
        /\ StronglySorted name_asc items
        /\ Permutation items (cps shelf))
  /\ (exists items,
        fst (list_handler (QString (JsString.lit "newest")) shelf)
        = Return (res_json 200 (CpsJson items))
        /\ map CP.name items
           = [JsString.lit "C"; JsString.lit "A"; JsString.lit "B"]
        /\ map CP.createdAt items
           = [1709287200004; 1709287200002; 1709287200000]
        /\ StronglySorted newest_first items
        /\ Permutation items (cps shelf))
  /\ fst (list_handler (QString (JsString.lit "oldest")) shelf)
     = fst (list_handler (QString (JsString.lit "votes")) shelf)
  /\ fst (list_handler QUndefined shelf)
     = fst (list_handler (QString (JsString.lit "votes")) shelf)
  /\ fst (list_handler QOther shelf)
     = fst (list_handler (QString (JsString.lit "votes")) shelf).
Proof.
  assert (Ho : outage shelf = None) by (vm_compute; reflexivity).
  split; [exact Ho|]. split; [vm_compute; reflexivity|].
  split; [|split; [|split; [|split; [|split]]]].
  - destruct (list_sorted (QString (JsString.lit "votes")) shelf Ho)
      as (items & H1 & H2 & H3 & _).
    exists items. split; [exact H1|].
    split; [|split; [|split; [exact (H3 eq_refl)|exact H2]]].
    + vm_compute in H1. injection H1 as <-. vm_compute. reflexivity.
    + vm_compute in H1. injection H1 as <-. vm_compute. reflexivity.
  - destruct (list_sorted (QString (JsString.lit "name")) shelf Ho)
      as (items & H1 & H2 & _ & H3 & _).
    exists items. split; [exact H1|].
    split; [|split; [exact (H3 eq_refl)|exact H2]].
    vm_compute in H1. injection H1 as <-. vm_compute. reflexivity.
  - destruct (list_sorted (QString (JsString.lit "newest")) shelf Ho)
      as (items & H1 & H2 & _ & _ & H3 & _).
    exists items. split; [exact H1|].
    split; [|split; [|split; [exact (H3 eq_refl)|exact H2]]].
    + vm_compute in H1. injection H1 as <-. vm_compute. reflexivity.
    + vm_compute in H1. injection H1 as <-. vm_compute. reflexivity.
  - destruct (list_sorted (QString (JsString.lit "oldest")) shelf Ho)
      as (items & _ & _ & _ & _ & _ & H).
    refine (proj2 (H _ _)); intros E; vm_compute in E; discriminate.
  - destruct (list_sorted QUndefined shelf Ho)
      as (items & _ & _ & _ & _ & _ & H).
    refine (proj2 (H _ _)); discriminate.
  - destruct (list_sorted QOther shelf Ho)
      as (items & _ & _ & _ & _ & _ & H).
    refine (proj2 (H _ _)); discriminate.
Defined.

Lemma vote_unknown_item_witness :
  reachable hex24_isValid hex24_new 0 world1
  /\ hex24_isValid other_id = true /\ outage world1 = None
  /\ fst (vote_handler hex24_isValid hex24_new 0 other_id (Some sample_ip)
            None world1) = Return NotFoundError_vote.
Proof.
  assert (Hr : reachable hex24_isValid hex24_new 0 world1).
  { apply reach_step with world0.
    - apply reach_init; reflexivity.
    - exact (step_request hex24_isValid hex24_new 0
               (POST_cps (Some (JsString.lit " A ")) (Some (JsString.lit "d"))
                  (Some jpeg_1)) world0). }
  assert (Hv : hex24_isValid other_id = true) by (vm_compute; reflexivity).
  assert (Ho : outage world1 = None) by (vm_compute; reflexivity).
  assert (Hnone : forall cp, In cp (cps world1) ->
                             CP._id cp <> hex24_new other_id).
  { intros cp H. vm_compute in H. destruct H as [<-|[]].
    vm_compute. discriminate. }
  repeat (split; [assumption|]).
  exact (proj1 (vote_unknown_item hex24_isValid hex24_new 0 other_id
                  (Some sample_ip) None world1 Hr Hv Ho Hnone)).
Defined.

Lemma votes_never_negative_witness :
  reachable hex24_isValid hex24_new 0 world0 /\ votes_nonneg world0
  /\ votes_nonneg world1.
Proof.
  assert (Hr : reachable hex24_isValid hex24_new 0 world0)
    by (apply reach_init; reflexivity).
  split; [exact Hr|].
  destruct (votes_never_negative hex24_isValid hex24_new 0 world0 Hr)
    as (H1 & _ & _ & H2).
  split; [exact H1|].
  exact (H2 world1
           (step_request hex24_isValid hex24_new 0
              (POST_cps (Some (JsString.lit " A ")) (Some (JsString.lit "d"))
                 (Some jpeg_1)) world0)).
Defined.

Lemma connect_idempotent_witness :
  connectToDatabase world0 = (Return {| client := 0 |}, connected world0)
  /\ connectToDatabase (connected world0)
     = (Return {| client := 0 |}, connected world0)
  /\ connectToDatabase (snd (sample_app (GET_cps QUndefined) (connected world0)))
     = (Return {| client := 0 |},
        snd (sample_app (GET_cps QUndefined) (connected world0)))
  /\ status_of (sample_app GET_health world_down) = Some 500.
Proof.
  assert (Hc : connectToDatabase world0
               = (Return {| client := 0 |}, connected world0))
    by reflexivity.
  split; [exact Hc|].
  destruct (connect_idempotent hex24_isValid hex24_new 0 world0
              (connected world0) {| client := 0 |} Hc)
    as (_ & H1 & H2 & H3 & _).
  split; [exact H1|]. split.
  - refine (proj1 (H2 _ _)). apply rt_step. apply step_request.
  - refine (proj1 (proj2 (H3 world_down _ eq_refl eq_refl))).
Defined.
Example lit_test :
  JsString.lit "暂无描述" = [26242; 26080; 25551; 36848]%N
  /\ JsString.lit "图片文件" = [22270; 29255; 25991; 20214]%N
  /\ JsString.lit "unknown" = [117; 110; 107; 110; 111; 119; 110]%N.
Proof. repeat split; reflexivity. Qed.

Example base64_test :
  base64 [x4d; x61; x6e] = JsString.lit "TWFu"
  /\ base64 [x4d; x61] = JsString.lit "TWE="
  /\ base64 [x4d] = JsString.lit "TQ=="
  /\ base64 [xff; xfe; xfd; x00] = JsString.lit "//79AA==".
Proof. repeat split; reflexivity. Qed.

Example trim_test :
  JsString.trim (JsString.lit "  a b 	") = JsString.lit "a b"
  /\ JsString.trim [0x3000; 0xA0; 0xFEFF]%N = [].
Proof. repeat split; reflexivity. Qed.

(** * Further properties of the handlers *)

Section Lookup.

Variable ObjectId_isValid : jsstring -> bool.
Variable ObjectId_new : jsstring -> ObjectId.t.
Variable LocalTZA : Z.

Local Abbreviation get := (get_handler ObjectId_isValid ObjectId_new).
Local Abbreviation vote :=
  (vote_handler ObjectId_isValid ObjectId_new LocalTZA).

Lemma get_run (id : jsstring) (w : World) :
  ObjectId_isValid id = true -> outage w = None ->
  get id w
  = (Return match find (has_id (ObjectId_new id)) (cps w) with
            | Some cp => res_json 200 (CpJson cp)
            | None => NotFoundError_get
            end,
     connected w).
Proof.
  intros Hv Ho. destruct w as [d c vl n o ck tk oi oc]. simpl in Ho. subst o.
  unfold get_handler, has_id. rewrite Hv.
  destruct d as [d|]; run_world.
  all: destruct (find _ c); reflexivity.
Qed.

Lemma get_invalid (id : jsstring) (w : World) :
  ObjectId_isValid id = false ->
  get id w = (Return (ValidationError invalid_id), w).
Proof.
  intros Hv. unfold get_handler, try_catch, ret. now rewrite Hv.
Qed.

Lemma has_id_true (objectId : ObjectId.t) (cp : CP.t) :
  has_id objectId cp = true <-> CP._id cp = objectId.
Proof. unfold has_id. apply ObjectId_eqb_eq. Qed.

Lemma has_id_false (objectId : ObjectId.t) (cp : CP.t) :
  has_id objectId cp = false <-> CP._id cp <> objectId.
Proof. unfold has_id, ObjectId.eqb. apply N.eqb_neq. Qed.

(** X1.  [GET /api/cps/:id] on a well-formed identifier, while the store
    can be reached: the answer is 200 with the first stored item that has
    the identifier, and it is the 404 response exactly when no stored item
    has it; neither collection changes. *)
Theorem get_lookup (id : jsstring) (w : World) :
  ObjectId_isValid id = true -> outage w = None ->
  let objectId := ObjectId_new id in
  (forall l1 cp l2,
     cps w = l1 ++ cp :: l2 -> CP._id cp = objectId ->
     (forall y, In y l1 -> CP._id y <> objectId) ->
     fst (get id w) = Return (res_json 200 (CpJson cp)))
  /\ (fst (get id w) = Return NotFoundError_get
      <-> forall cp, In cp (cps w) -> CP._id cp <> objectId)
  /\ cps (snd (get id w)) = cps w
  /\ vote_logs (snd (get id w)) = vote_logs w.
Proof.
  intros Hv Ho objectId. subst objectId. rewrite (get_run id w Hv Ho). simpl.
  rewrite connected_cps, connected_vote_logs.
  split; [|split; [|split; reflexivity]].
  - intros l1 cp l2 Hw Hid Hl1. rewrite Hw.
    rewrite find_app_skip; auto.
    + intros y Hy. apply has_id_false. auto.
    + now apply has_id_true.
  - destruct (find (has_id (ObjectId_new id)) (cps w)) as [cp|] eqn:Hf.
    + split; [discriminate|]. intros H. apply find_some in Hf.
      destruct Hf as [Hin Hid]. apply has_id_true in Hid.
      now destruct (H cp Hin).
    + split; [|reflexivity]. intros _ cp Hin. apply has_id_false.
      exact (find_none _ _ Hf cp Hin).
Qed.

(** X2.  An item that has just been created is found again: after a create
    request that is served (status 201), [GET /api/cps/:id] with a string
    the driver reads as the generated identifier answers 200 with exactly
    the item of the create response, provided the identifier was fresh. *)
Theorem create_then_get (name : jsstring) (description : option jsstring)
    (file : UploadedFile) (id : jsstring) (w : World) :
  JsString.trim name <> [] ->
  JsString.startsWith (mimetype file) (JsString.lit "image/") = true ->
  (N.of_nat (List.length (buffer file)) <= fileSize)%N ->
  outage w = None ->
  ObjectId_isValid id = true ->
  ObjectId_new id = oids w (oid_count w) ->
  (forall cp, In cp (cps w) -> CP._id cp <> oids w (oid_count w)) ->
  let created := create_route (Some name) description (Some file) w in
  exists message cp,
    fst created
    = Return (res_json 201
                (CreatedJson true message (oids w (oid_count w)) cp))
    /\ fst (get id (snd created)) = Return (res_json 200 (CpJson cp)).
Proof.
  intros Hn Hm Hs Ho Hv Hid Hfresh. cbv zeta. unfold create_route.
  rewrite (upload_accepts file Hm Hs), (create_run name description file w Hn Ho).
  cbv zeta. do 2 eexists. split; [reflexivity|].
  cbn [snd]. rewrite get_run; [|exact Hv|].
  - cbn [fst cps set_cps]. rewrite Hid.
    rewrite find_app_skip; [reflexivity| |].
    + intros y Hy. apply has_id_false. auto.
    + now apply has_id_true.
  - simpl. unfold connected. simpl. now destruct (db w).
Qed.

(** X3.  The count a successful vote reports is the count a following
    [GET /api/cps/:id] shows: after the vote of C2, the item is returned
    with [votes] equal to the [newVoteCount] of the vote's response. *)
Theorem vote_then_get id ip forwarded (w : World) l1 cp l2 :
  ObjectId_isValid id = true -> outage w = None ->
  let objectId := ObjectId_new id in
  let voterIp := voterIp_of ip forwarded in
  let todayStart := setHours_0_0_0_0 LocalTZA (clock w (ticks w)) in
  (forall l, In l (vote_logs w) -> ~ blocks objectId voterIp todayStart l) ->
  cps w = l1 ++ cp :: l2 -> CP._id cp = objectId ->
  (forall y, In y l1 -> CP._id y <> objectId) ->
  exists message newVoteCount item,
    fst (vote id ip forwarded w)
    = Return (res_json 200 (VotedJson true message newVoteCount))
    /\ fst (get id (snd (vote id ip forwarded w)))
       = Return (res_json 200 (CpJson item))
    /\ CP.votes item = newVoteCount
    /\ newVoteCount = CP.votes cp + 1
    /\ fixed_part item = fixed_part cp.
Proof.
  intros Hv Ho objectId voterIp todayStart Hfree Hw Hid Hl1.
  assert (Hnone : find (vote_filter objectId voterIp todayStart)
                    (vote_logs w) = None).
  { apply find_none_iff. intros l Hl.
    destruct (vote_filter objectId voterIp todayStart l) eqn:Hb; auto.
    apply vote_filter_blocks in Hb. now destruct (Hfree l Hl). }
  assert (Hp1 : forall y, In y l1 -> has_id objectId y = false).
  { intros y Hy. apply has_id_false. auto. }
  assert (Hpc : has_id objectId cp = true) by now apply has_id_true.
  assert (Hfind : find (has_id objectId) (cps w) = Some cp).
  { rewrite Hw. now apply find_app_skip. }
  destruct (update_first_some (has_id objectId)
              (voted (clock w (S (ticks w)))) _ _ Hfind)
    as (k1 & k2 & Hk & Hk1 & _ & Hu).
  rewrite (vote_run _ _ _ id ip forwarded w Hv Ho). cbv zeta.
  fold objectId voterIp todayStart. rewrite Hnone, Hfind, Hu.
  exists (JsString.lit "投票成功！感谢您的支持！"), (CP.votes cp + 1),
    (voted (clock w (S (ticks w))) cp).
  split; [reflexivity|]. cbn [snd fst]. rewrite get_run; [|exact Hv|].
  - cbn [fst cps set_cps set_vote_logs set_oid_count set_ticks].
    fold objectId. rewrite find_app_skip; auto.
  - simpl. unfold connected. now destruct (db w).
Qed.

(** X4.  [GET /api/health] answers 200 exactly when the store can be
    reached and 500 otherwise, also when a handle is already cached; its
    body names the database connected or disconnected accordingly, and
    neither collection changes. *)
Theorem health_reports_store (w : World) :
  exists status message timestamp database,
    fst (health_handler w)
    = Return (res_json (match outage w with Some _ => 500 | None => 200 end)
                (HealthJson status message timestamp database))
    /\ database = match outage w with
                  | Some _ => JsString.lit "disconnected"
                  | None => JsString.lit "connected"
                  end
    /\ cps (snd (health_handler w)) = cps w
    /\ vote_logs (snd (health_handler w)) = vote_logs w.
Proof.
  unfold health_handler.
  destruct w as [d c vl n o ck tk oi oc].
  destruct d as [d|]; destruct o as [e|]; run_world;
    do 4 eexists; repeat split; reflexivity.
Qed.

End Lookup.

Section Effects.

Variable ObjectId_isValid : jsstring -> bool.
Variable ObjectId_new : jsstring -> ObjectId.t.
Variable LocalTZA : Z.

Local Abbreviation app' := (app ObjectId_isValid ObjectId_new LocalTZA).
Local Abbreviation step' := (step ObjectId_isValid ObjectId_new LocalTZA).
Local Abbreviation reachable' :=
  (reachable ObjectId_isValid ObjectId_new LocalTZA).
Local Abbreviation get := (get_handler ObjectId_isValid ObjectId_new).
Local Abbreviation vote :=
  (vote_handler ObjectId_isValid ObjectId_new LocalTZA).


(** X6.  Only the two POST routes write: the health, list and get routes
    and the unmatched routes leave both collections exactly as they
    were, in every world. *)
Theorem only_posts_write (req : Request) (w : World) :
  is_vote req = false ->
  (forall name description image, req <> POST_cps name description image) ->
  cps (snd (app' req w)) = cps w
  /\ vote_logs (snd (app' req w)) = vote_logs w.
Proof.
  intros Hvote Hcreate.
  destruct req as [|sort|name description image|id ip forwarded|id|]; simpl.
  - destruct (health_world w) as (_ & _ & Hc & Hl & _). auto.
  - destruct (list_world sort w) as (_ & _ & Hc & Hl & _). auto.
  - now destruct (Hcreate name description image).
  - discriminate.
  - destruct (get_world ObjectId_isValid ObjectId_new id w)
      as (_ & _ & Hc & Hl & _). auto.
  - auto.
Qed.

Lemma fixed_part_voted (d : Date) (cp : CP.t) :
  fixed_part (voted d cp) = fixed_part cp.
Proof. reflexivity. Qed.

(** X7.  Stored data is never deleted or rewritten: whatever the request,
    the items stored before are still there afterwards, in the same
    order and with the same [_id], [name], [description], [imageUrl] and
    [createdAt]; the vote logs stored before are a prefix of those stored
    afterwards; and at most one item and one log are added. *)
Theorem stored_data_is_kept (req : Request) (w : World) :
  exists new_items new_logs,
    map fixed_part (cps (snd (app' req w)))
    = map fixed_part (cps w) ++ map fixed_part new_items
    /\ List.length (cps (snd (app' req w)))
       = (List.length (cps w) + List.length new_items)%nat
    /\ vote_logs (snd (app' req w)) = vote_logs w ++ new_logs
    /\ (List.length new_items <= 1)%nat /\ (List.length new_logs <= 1)%nat.
Proof.
  destruct (app_evolves ObjectId_isValid ObjectId_new LocalTZA req w)
    as [Hc Hl|cp Hv Hc Hl|l1 l2 cp d log Hw Hc Hl _]; rewrite Hc, Hl.
  - exists [], []. simpl. rewrite !app_nil_r. repeat split; lia.
  - exists [cp], []. rewrite map_app, length_app, app_nil_r. simpl.
    repeat split; lia.
  - exists [], [log]. rewrite Hw, !map_app, !length_app. simpl.
    rewrite fixed_part_voted, app_nil_r. repeat split; lia.
Qed.

(** X9.  In every state of the system each stored vote log is for a stored
    item: its [cpId] is the [_id] of some item of the collection. *)
Theorem vote_logs_refer_to_items (w : World) (l : VoteLog.t) :
  reachable' w -> In l (vote_logs w) ->
  exists cp, In cp (cps w) /\ CP._id cp = VoteLog.cpId l.
Proof.
  intros Hr. revert l. change (logs_refer w).
  induction Hr as [w Hc Hl|w w' _ IH Hs].
  - intros l. rewrite Hl. intros [].
  - apply evolves_logs_refer with w; [|exact IH].
    exact (step_evolves _ _ _ w w' Hs).
Qed.

End Effects.

(** ** The shape of stored items *)

Lemma trimStart_idem (s : jsstring) :
  JsString.trimStart (JsString.trimStart s) = JsString.trimStart s.
Proof.
  induction s as [|c s IH]; simpl; [reflexivity|].
  destruct (JsString.is_space c) eqn:Hc; [exact IH|]. simpl. now rewrite Hc.
Qed.

Lemma trimStart_snoc (l : jsstring) (c : N) :
  JsString.trimStart (l ++ [c])
  = match JsString.trimStart l with
    | [] => JsString.trimStart [c]
    | x => x ++ [c]
    end.
Proof.
  induction l as [|a l IH]; simpl; [reflexivity|].
  destruct (JsString.is_space a); [exact IH|reflexivity].
Qed.

Lemma trimEnd_cons (c : N) (r : jsstring) :
  JsString.trimEnd (c :: r)
  = match JsString.trimEnd r with
    | [] => if JsString.is_space c then [] else [c]
    | x => c :: x
    end.
Proof.
  unfold JsString.trimEnd. simpl rev. rewrite trimStart_snoc.
  destruct (JsString.trimStart (rev r)) as [|a x] eqn:E.
  - simpl. now destruct (JsString.is_space c).
  - rewrite rev_app_distr. simpl.
    destruct (rev x ++ [a]) eqn:E'; [|reflexivity].
    now destruct (app_cons_not_nil _ _ _ (eq_sym E')).
Qed.

Lemma trimEnd_idem (s : jsstring) :
  JsString.trimEnd (JsString.trimEnd s) = JsString.trimEnd s.
Proof.
  induction s as [|c s IH]; [reflexivity|].
  rewrite (trimEnd_cons c s).
  destruct (JsString.trimEnd s) as [|a x] eqn:E.
  - destruct (JsString.is_space c) eqn:Hc; [reflexivity|].
    rewrite trimEnd_cons. simpl. now rewrite Hc.
  - rewrite trimEnd_cons, IH. reflexivity.
Qed.

Lemma trimStart_trimEnd (s : jsstring) :
  JsString.trimStart s = s ->
  JsString.trimStart (JsString.trimEnd s) = JsString.trimEnd s.
Proof.
  destruct s as [|c r]; [reflexivity|]. simpl.
  destruct (JsString.is_space c) eqn:Hc.
  - intros E. exfalso.
    assert (L : forall l : jsstring,
              (List.length (JsString.trimStart l) <= List.length l)%nat).
    { induction l as [|a l IHl]; simpl; [lia|].
      destruct (JsString.is_space a); simpl; lia. }
    pose proof (L r) as Hr. rewrite E in Hr. simpl in Hr. lia.
  - intros _. rewrite trimEnd_cons.
    destruct (JsString.trimEnd r); rewrite ?Hc; simpl; rewrite ?Hc;
      reflexivity.
Qed.

Lemma trim_idem (s : jsstring) :
  JsString.trim (JsString.trim s) = JsString.trim s.
Proof.
  unfold JsString.trim.
  rewrite (trimStart_trimEnd _ (trimStart_idem s)). apply trimEnd_idem.
Qed.

Lemma startsWith_app_same (p s q : jsstring) :
  JsString.startsWith (p ++ s) (p ++ q) = JsString.startsWith s q.
Proof.
  induction p as [|c p IH]; simpl; [reflexivity|].
  now rewrite N.eqb_refl, IH.
Qed.

Lemma startsWith_nil (s : jsstring) : JsString.startsWith s [] = true.
Proof. now destruct s. Qed.

Lemma startsWith_app_l (q s r : jsstring) :
  JsString.startsWith s q = true -> JsString.startsWith (s ++ r) q = true.
Proof.
  revert s. induction q as [|c q IH]; intros s;
    [intros _; apply startsWith_nil|].
  destruct s as [|d s]; simpl; [discriminate|].
  rewrite !andb_true_iff. intros [H1 H2]. split; [exact H1|now apply IH].
Qed.

Lemma well_formed_voted (d : Date) (cp : CP.t) :
  well_formed cp -> well_formed (voted d cp).
Proof. intros H. exact H. Qed.

Lemma create_stores_well_formed (name description : option jsstring)
    (image : option UploadedFile) (w : World) :
  let w' := snd (create_route name description image w) in
  cps w' = cps w \/ exists cp, well_formed cp /\ cps w' = cps w ++ [cp].
Proof.
  cbv zeta. unfold create_route.
  destruct (upload_single image) as [err|req_file] eqn:Hup; [now left|].
  destruct name as [n|].
  2: { rewrite create_blank_name by exact I. now left. }
  destruct (list_eq_dec N.eq_dec (JsString.trim n) []) as [Hn|Hn].
  { rewrite create_blank_name by exact Hn. now left. }
  destruct req_file as [file|].
  2: { rewrite create_no_file by exact Hn. now left. }
  destruct (outage w) as [e|] eqn:Ho.
  { left. now destruct (create_outage n description file w e Hn Ho). }
  right. rewrite (create_run n description file w Hn Ho). cbv zeta.
  eexists. split; [|reflexivity].
  assert (Hm : JsString.startsWith (mimetype file) (JsString.lit "image/")
               = true).
  { destruct image as [f|]; simpl in Hup; [|discriminate].
    unfold fileFilter in Hup.
    destruct (JsString.startsWith (mimetype f) (JsString.lit "image/"))
      eqn:E; [|discriminate].
    destruct (fileSize <? _)%N; [discriminate|]. now injection Hup as <-. }
  unfold well_formed. simpl. repeat split.
  - exact Hn.
  - apply trim_idem.
  - apply trim_idem.
  - change (JsString.lit "data:image/")
      with (JsString.lit "data:" ++ JsString.lit "image/").
    rewrite ?startsWith_app_same.
    apply (startsWith_app_l (JsString.lit "image/")). exact Hm.
Qed.

Section Shape.

Variable ObjectId_isValid : jsstring -> bool.
Variable ObjectId_new : jsstring -> ObjectId.t.
Variable LocalTZA : Z.

Local Abbreviation app' := (app ObjectId_isValid ObjectId_new LocalTZA).
Local Abbreviation reachable' :=
  (reachable ObjectId_isValid ObjectId_new LocalTZA).

Lemma app_keeps_well_formed (req : Request) (w : World) :
  Forall well_formed (cps w) -> Forall well_formed (cps (snd (app' req w))).
Proof.
  intros H.
  destruct req as [|sort|name description image|id ip forwarded|id|]; simpl.
  - destruct (health_world w) as (_ & _ & Hc & _). now rewrite Hc.
  - destruct (list_world sort w) as (_ & _ & Hc & _). now rewrite Hc.
  - destruct (create_stores_well_formed name description image w)
      as [Hc|(cp & Hwf & Hc)]; rewrite Hc; [exact H|].
    apply Forall_app. split; [exact H|]. now constructor.
  - destruct (vote_evolves ObjectId_isValid ObjectId_new LocalTZA
                id ip forwarded w)
      as [[Hc _]|(l1 & cp & l2 & d & log & Hw & Hc & _)]; rewrite Hc;
      [exact H|].
    rewrite Hw in H. apply Forall_app in H. destruct H as [H1 H2].
    apply Forall_app. split; [exact H1|].
    inversion H2 as [|? ? Hcp Hl2]; subst. constructor; [|exact Hl2].
    now apply well_formed_voted.
  - destruct (get_world ObjectId_isValid ObjectId_new id w)
      as (_ & _ & Hc & _). now rewrite Hc.
  - exact H.
Qed.

(** X11.  In every state of the system each stored item has a name that is
    not empty and has no white space at either end, a description with no
    white space at either end, and an [imageUrl] that starts with
    [data:image/]. *)
Theorem stored_items_are_well_formed (w : World) (cp : CP.t) :
  reachable' w -> In cp (cps w) ->
  CP.name cp <> [] /\ JsString.trim (CP.name cp) = CP.name cp
  /\ JsString.trim (CP.description cp) = CP.description cp
  /\ JsString.startsWith (CP.imageUrl cp) (JsString.lit "data:image/") = true.
Proof.
  intros Hr. revert cp. change (forall cp, In cp (cps w) -> well_formed cp).
  apply Forall_forall.
  induction Hr as [w Hc Hl|w w' _ IH Hs].
  - rewrite Hc. constructor.
  - destruct Hs as [req w0|w0 w0' _ Hc _ _].
    + now apply app_keeps_well_formed.
    + now rewrite Hc.
Qed.

End Shape.

(** ** The connection *)

Lemma health_run (w : World) :
  outage w = None ->
  health_handler w
  = (Return (res_json 200
               (HealthJson (JsString.lit "ok")
                  (JsString.lit "CP投票站后端API运行正常") (clock w (ticks w))
                  (JsString.lit "connected"))),
     set_ticks (S (ticks w)) (connected w)).
Proof.
  intros Ho. destruct w as [d c vl n o ck tk oi oc]. simpl in Ho. subst o.
  unfold health_handler. destruct d as [d|]; run_world; reflexivity.
Qed.

Section Connection.

Variable ObjectId_isValid : jsstring -> bool.
Variable ObjectId_new : jsstring -> ObjectId.t.
Variable LocalTZA : Z.

Local Abbreviation app' := (app ObjectId_isValid ObjectId_new LocalTZA).
Local Abbreviation step' := (step ObjectId_isValid ObjectId_new LocalTZA).

(** A request served while no handle is stored either opens the one
    connection it needs, or opens none and changes nothing. *)
Lemma app_without_handle (req : Request) (w : World) :
  db w = None ->
  let w' := snd (app' req w) in
  (db w' = None /\ connections w' = connections w
   /\ cps w' = cps w /\ vote_logs w' = vote_logs w)
  \/ (outage w = None /\ db w' = Some {| client := connections w |}
      /\ connections w' = S (connections w)).
Proof.
  intros Hd. cbv zeta.
  assert (Hconn : outage w = None ->
                  db (connected w) = Some {| client := connections w |}
                  /\ connections (connected w) = S (connections w)).
  { intros _. unfold connected. rewrite Hd. auto. }
  destruct req as [|sort|name description image|id ip forwarded|id|]; simpl.
  - destruct (outage w) as [e|] eqn:Ho.
    + left. destruct w as [d c vl n o ck tk oi oc]. simpl in *. subst.
      unfold health_handler. run_world. auto.
    + right. rewrite (health_run w Ho). simpl. destruct (Hconn eq_refl).
      auto.
  - destruct (outage w) as [e|] eqn:Ho.
    + left. destruct w as [d c vl n o ck tk oi oc]. simpl in *. subst.
      unfold list_handler. run_world. auto.
    + right. rewrite (list_run sort w Ho). simpl. destruct (Hconn eq_refl).
      auto.
  - unfold create_route.
    destruct (upload_single image) as [err|req_file]; [left; auto|].
    destruct name as [n|].
    2: { rewrite create_blank_name by exact I. left; auto. }
    destruct (list_eq_dec N.eq_dec (JsString.trim n) []) as [Hn|Hn].
    { rewrite create_blank_name by exact Hn. left; auto. }
    destruct req_file as [file|].
    2: { rewrite create_no_file by exact Hn. left; auto. }
    destruct (outage w) as [e|] eqn:Ho.
    + left. unfold create_handler.
      apply truthy_nonempty in Hn. rewrite Hn, (trim_truthy n Hn).
      destruct w as [d c vl k o ck tk oi oc]. simpl in *. subst.
      run_world. destruct (JsString.includes _ _); auto.
    + right. rewrite (create_run n description file w Hn Ho). cbv zeta.
      simpl. unfold connected. simpl. rewrite Hd. auto.
  - destruct (ObjectId_isValid id) eqn:Hv.
    2: { rewrite (vote_invalid _ _ _ id ip forwarded w Hv). left; auto. }
    destruct (outage w) as [e|] eqn:Ho.
    + left. unfold vote_handler. rewrite Hv.
      destruct w as [d c vl k o ck tk oi oc]. simpl in *. subst.
      run_world. auto.
    + right. rewrite (vote_run _ _ _ id ip forwarded w Hv Ho). cbv zeta.
      destruct (Hconn eq_refl).
      destruct (find (vote_filter _ _ _) (vote_logs w)); [simpl; auto|].
      destruct (find (has_id _) (cps w)); simpl; auto.
  - destruct (ObjectId_isValid id) eqn:Hv.
    2: { rewrite (get_invalid _ _ id w Hv). left; auto. }
    destruct (outage w) as [e|] eqn:Ho.
    + left. unfold get_handler. rewrite Hv.
      destruct w as [d c vl k o ck tk oi oc]. simpl in *. subst.
      run_world. auto.
    + right. rewrite (get_run _ _ id w Hv Ho). simpl.
      destruct (Hconn eq_refl). auto.
  - left; auto.
Qed.

(** X13.  A failed connection is not remembered: a request served while no
    handle is stored and the store cannot be reached leaves [db] unset,
    opens no connection and changes neither collection; and once the store
    is back, the next request connects and is served (the health route
    answers 200 and the handle is stored). *)
Theorem failed_connection_is_retried (req : Request) (w : World)
    (e : JsError) :
  db w = None -> outage w = Some e ->
  let w' := snd (app' req w) in
  db w' = None /\ connections w' = connections w
  /\ cps w' = cps w /\ vote_logs w' = vote_logs w
  /\ status_of (app' GET_health (store_back w')) = Some 200
  /\ db (snd (app' GET_health (store_back w')))
     = Some {| client := connections w |}.
Proof.
  intros Hd Ho. cbv zeta.
  destruct (app_without_handle req w Hd)
    as [(H1 & H2 & H3 & H4)|(H & _)]; [|congruence].
  repeat (split; [assumption|]).
  simpl app. rewrite (health_run (store_back _) eq_refl).
  unfold status_of. simpl. split; [reflexivity|].
  unfold connected. simpl. rewrite H1, H2. reflexivity.
Qed.

End Connection.

(** ** The store is down, identifiers *)

(** X14.  A create request that passes validation while the store cannot
    be reached stores nothing; it is answered with status 500 and a fixed
    message, except when the message of the store's error contains the
    words [图片文件], in which case the handler answers 400 and sends that
    message to the client. *)
Theorem create_when_store_is_down (name : jsstring)
    (description : option jsstring) (file : UploadedFile) (w : World)
    (e : JsError) :
  JsString.trim name <> [] ->
  JsString.startsWith (mimetype file) (JsString.lit "image/") = true ->
  (N.of_nat (List.length (buffer file)) <= fileSize)%N ->
  outage w = Some e ->
  let answer := create_route (Some name) description (Some file) w in
  (JsString.includes (message e) (JsString.lit "图片文件") = false ->
   fst answer
   = Return (res_json 500
               (ErrorJson (JsString.lit "服务器内部错误，创建失败"))))
  /\ (JsString.includes (message e) (JsString.lit "图片文件") = true ->
      fst answer = Return (res_json 400 (ErrorJson (message e))))
  /\ cps (snd answer) = cps w /\ vote_logs (snd answer) = vote_logs w.
Proof.
  intros Hn Hm Hs Ho. cbv zeta. unfold create_route.
  rewrite (upload_accepts file Hm Hs).
  destruct (create_outage name description file w e Hn Ho) as (Hr & Hc & Hl).
  rewrite Hr, Hc, Hl. repeat split; intros ->; reflexivity.
Qed.

Section Identifiers.

Variable ObjectId_isValid : jsstring -> bool.
Variable ObjectId_new : jsstring -> ObjectId.t.
Variable LocalTZA : Z.

Local Abbreviation app' := (app ObjectId_isValid ObjectId_new LocalTZA).
Local Abbreviation vote :=
  (vote_handler ObjectId_isValid ObjectId_new LocalTZA).
Local Abbreviation get := (get_handler ObjectId_isValid ObjectId_new).

(** X17.  Identifiers stay unique as long as the driver generates fresh
    ones: if the stored items have pairwise different [_id] and the next
    identifier of the driver is not among them, the stored items have
    pairwise different [_id] after any request.  The service itself never
    checks an identifier for uniqueness. *)
Theorem item_ids_stay_unique (req : Request) (w : World) :
  NoDup (item_ids w) ->
  ~ In (oids w (oid_count w)) (item_ids w) ->
  NoDup (item_ids (snd (app' req w))).
Proof.
  unfold item_ids. intros Hnd Hfresh.
  destruct req as [|sort|name description image|id ip forwarded|id|]; simpl.
  - destruct (health_world w) as (_ & _ & Hc & _). now rewrite Hc.
  - destruct (list_world sort w) as (_ & _ & Hc & _). now rewrite Hc.
  - unfold create_route.
    destruct (upload_single image) as [err|req_file]; [exact Hnd|].
    destruct name as [n|].
    2: { now rewrite create_blank_name by exact I. }
    destruct (list_eq_dec N.eq_dec (JsString.trim n) []) as [Hn|Hn].
    { now rewrite create_blank_name by exact Hn. }
    destruct req_file as [file|].
    2: { now rewrite create_no_file by exact Hn. }
    destruct (outage w) as [e|] eqn:Ho.
    + destruct (create_outage n description file w e Hn Ho) as (_ & Hc & _).
      now rewrite Hc.
    + rewrite (create_run n description file w Hn Ho). cbv zeta. simpl.
      rewrite map_app. simpl.
      apply NoDup_app; [exact Hnd|repeat constructor; intros []|].
      intros x Hx [<-|[]]. contradiction.
  - destruct (vote_evolves ObjectId_isValid ObjectId_new LocalTZA
                id ip forwarded w)
      as [[Hc _]|(l1 & cp & l2 & d & log & Hw & Hc & _)]; rewrite Hc;
      [exact Hnd|].
    rewrite Hw in Hnd. rewrite map_app in *. exact Hnd.
  - destruct (get_world ObjectId_isValid ObjectId_new id w)
      as (_ & _ & Hc & _). now rewrite Hc.
  - exact Hnd.
Qed.

End Identifiers.

(** ** Requests in sequence *)

Section Sequences.

Variable ObjectId_isValid : jsstring -> bool.
Variable ObjectId_new : jsstring -> ObjectId.t.
Variable LocalTZA : Z.

Local Abbreviation vote :=
  (vote_handler ObjectId_isValid ObjectId_new LocalTZA).

(** X20.  An item that has just been created is listed: after a create
    request that is served, the list route, whatever the sort key, returns
    the stored items of before together with the new one. *)
Theorem create_then_list (name : jsstring) (description : option jsstring)
    (file : UploadedFile) (sort : QueryValue) (w : World) :
  JsString.trim name <> [] ->
  JsString.startsWith (mimetype file) (JsString.lit "image/") = true ->
  (N.of_nat (List.length (buffer file)) <= fileSize)%N ->
  outage w = None ->
  let created := create_route (Some name) description (Some file) w in
  exists message id cp items,
    fst created = Return (res_json 201 (CreatedJson true message id cp))
    /\ fst (list_handler sort (snd created))
       = Return (res_json 200 (CpsJson items))
    /\ Permutation items (cps w ++ [cp])
    /\ In cp items.
Proof.
  intros Hn Hm Hs Ho. cbv zeta. unfold create_route.
  rewrite (upload_accepts file Hm Hs), (create_run name description file w Hn Ho).
  cbv zeta. do 4 eexists. split; [reflexivity|]. cbn [snd].
  rewrite list_run.
  2: { simpl. unfold connected. simpl. now destruct (db w). }
  cbn [fst cps set_cps]. split; [reflexivity|].
  split; [apply cursor_sort_perm|].
  apply (Permutation_in _ (Permutation_sym (cursor_sort_perm _ _ _))).
  apply in_or_app. right. now left.
Qed.

(** X21.  Voting twice in a row: after a vote that succeeded, the same
    voter's next vote for the same item is answered with the duplicate-vote
    error when the clock reading of the second request is on the local
    calendar day of the first vote's log entry. *)
Theorem vote_twice_same_day id ip forwarded (w : World) :
  ObjectId_isValid id = true -> outage w = None ->
  status_of (vote id ip forwarded w) = Some 200 ->
  localDay LocalTZA (clock w (S (S (S (ticks w)))))
  = localDay LocalTZA (clock w (S (S (ticks w)))) ->
  fst (vote id ip forwarded (snd (vote id ip forwarded w)))
  = Return DuplicateVoteError.
Proof.
  intros Hv Ho H200 Hday. unfold status_of in H200. revert H200.
  rewrite (vote_run _ _ _ id ip forwarded w Hv Ho). cbv zeta.
  destruct (find (vote_filter _ _ _) (vote_logs w)); [discriminate|].
  destruct (find (has_id _) (cps w)); [|discriminate].
  intros _. cbn [snd]. rewrite vote_run; [|exact Hv|].
  2: { simpl. unfold connected. now destruct (db w). }
  cbv zeta.
  cbn [vote_logs clock ticks set_vote_logs set_oid_count set_ticks set_cps].
  assert (Hk : clock (connected w) = clock w).
  { unfold connected. now destruct (db w). }
  rewrite Hk.
  destruct (find_some_blocks (ObjectId_new id) (voterIp_of ip forwarded)
              (setHours_0_0_0_0 LocalTZA (clock w (S (S (S (ticks w))))))
              (vote_logs w ++ [new_log (ObjectId_new id) ip forwarded w]))
    as [_ H].
  destruct H as [l Hl]; [|now rewrite Hl].
  exists (new_log (ObjectId_new id) ip forwarded w). split.
  - apply in_or_app. right. now left.
  - unfold blocks. simpl. repeat split.
    rewrite (setHours_same_day LocalTZA _ _ Hday). apply setHours_le.
Qed.

End Sequences.

(** ** The further properties at work on the scenario *)

Lemma reachable_world1 : reachable hex24_isValid hex24_new 0 world1.
Proof.
  apply reach_step with world0.
  - apply reach_init; reflexivity.
  - exact (step_request hex24_isValid hex24_new 0
             (POST_cps (Some (JsString.lit " A ")) (Some (JsString.lit "d"))
                (Some jpeg_1)) world0).
Defined.

Lemma reachable_world2 : reachable hex24_isValid hex24_new 0 world2.
Proof.
  apply reach_step with world1.
  - exact reachable_world1.
  - exact (step_request hex24_isValid hex24_new 0
             (POST_cps_vote sample_id (Some sample_ip) None) world1).
Defined.

Lemma get_lookup_witness :
  hex24_isValid sample_id = true /\ outage world2 = None
  /\ fst (get_handler hex24_isValid hex24_new sample_id world2)
     = Return (res_json 200 (CpJson (voted 1709287200003 item1))).
Proof.
  assert (Hv : hex24_isValid sample_id = true) by (vm_compute; reflexivity).
  assert (Ho : outage world2 = None) by (vm_compute; reflexivity).
  split; [exact Hv|]. split; [exact Ho|].
  refine (proj1 (get_lookup hex24_isValid hex24_new sample_id world2 Hv Ho)
            [] (voted 1709287200003 item1) [] _ _ _).
  - vm_compute. reflexivity.
  - vm_compute. reflexivity.
  - intros y [].
Defined.

Lemma create_then_get_witness :
  JsString.trim (JsString.lit " A ") <> []
  /\ outage world0 = None
  /\ hex24_isValid sample_id = true
  /\ hex24_new sample_id = oids world0 (oid_count world0)
  /\ exists message cp,
       fst (create_route (Some (JsString.lit " A ")) (Some (JsString.lit "d"))
              (Some jpeg_1) world0)
       = Return (res_json 201
                   (CreatedJson true message (oids world0 (oid_count world0))
                      cp))
       /\ fst (get_handler hex24_isValid hex24_new sample_id
                 (snd (create_route (Some (JsString.lit " A "))
                         (Some (JsString.lit "d")) (Some jpeg_1) world0)))
          = Return (res_json 200 (CpJson cp)).
Proof.
  assert (Hn : JsString.trim (JsString.lit " A ") <> [])
    by (vm_compute; discriminate).
  assert (Hm : JsString.startsWith (mimetype jpeg_1) (JsString.lit "image/")
               = true) by (vm_compute; reflexivity).
  assert (Hs : (N.of_nat (List.length (buffer jpeg_1)) <= fileSize)%N)
    by (vm_compute; discriminate).
  assert (Ho : outage world0 = None) by reflexivity.
  assert (Hv : hex24_isValid sample_id = true) by (vm_compute; reflexivity).
  assert (Hid : hex24_new sample_id = oids world0 (oid_count world0))
    by (vm_compute; reflexivity).
  assert (Hfresh : forall cp, In cp (cps world0) ->
                     CP._id cp <> oids world0 (oid_count world0)).
  { intros cp []. }
  repeat (split; [assumption|]).
  exact (create_then_get hex24_isValid hex24_new (JsString.lit " A ")
           (Some (JsString.lit "d")) jpeg_1 sample_id world0
           Hn Hm Hs Ho Hv Hid Hfresh).
Defined.

Lemma vote_then_get_witness :
  hex24_isValid sample_id = true /\ outage world1 = None
  /\ cps world1 = [] ++ item1 :: []
  /\ exists message newVoteCount item,
       fst (vote_handler hex24_isValid hex24_new 0 sample_id (Some sample_ip)
              None world1)
       = Return (res_json 200 (VotedJson true message newVoteCount))
       /\ fst (get_handler hex24_isValid hex24_new sample_id world2)
          = Return (res_json 200 (CpJson item))
       /\ CP.votes item = newVoteCount.
Proof.
  assert (Hv : hex24_isValid sample_id = true) by (vm_compute; reflexivity).
  assert (Ho : outage world1 = None) by (vm_compute; reflexivity).
  assert (Hw : cps world1 = [] ++ item1 :: []) by (vm_compute; reflexivity).
  assert (Hid : CP._id item1 = hex24_new sample_id)
    by (vm_compute; reflexivity).
  assert (Hfree : forall l, In l (vote_logs world1) ->
            ~ blocks (hex24_new sample_id) (voterIp_of (Some sample_ip) None)
                (setHours_0_0_0_0 0 (clock world1 (ticks world1))) l).
  { intros l H. vm_compute in H. destruct H. }
  assert (Hl1 : forall y : CP.t, In y [] -> CP._id y <> hex24_new sample_id).
  { intros y []. }
  repeat (split; [assumption|]).
  destruct (vote_then_get hex24_isValid hex24_new 0 sample_id
              (Some sample_ip) None world1 [] item1 [] Hv Ho Hfree Hw Hid Hl1)
    as (message & n & item & H1 & H2 & H3 & _).
  exists message, n, item. repeat split; assumption.
Defined.

Lemma only_posts_write_witness :
  is_vote (GET_cps QUndefined) = false
  /\ cps (snd (sample_app (GET_cps QUndefined) world2)) = cps world2
  /\ vote_logs (snd (sample_app (GET_cps QUndefined) world2))
     = vote_logs world2.
Proof.
  split; [reflexivity|].
  refine (only_posts_write hex24_isValid hex24_new 0 (GET_cps QUndefined)
            world2 eq_refl _).
  intros name description image. discriminate.
Defined.

Lemma vote_logs_refer_to_items_witness :
  reachable hex24_isValid hex24_new 0 world2
  /\ In (new_log (hex24_new sample_id) (Some sample_ip) None world1)
       (vote_logs world2)
  /\ exists cp,
       In cp (cps world2)
       /\ CP._id cp
          = VoteLog.cpId
              (new_log (hex24_new sample_id) (Some sample_ip) None world1).
Proof.
  assert (Hin : In (new_log (hex24_new sample_id) (Some sample_ip) None
                      world1) (vote_logs world2)).
  { vm_compute. left. reflexivity. }
  split; [exact reachable_world2|]. split; [exact Hin|].
  exact (vote_logs_refer_to_items hex24_isValid hex24_new 0 world2 _
           reachable_world2 Hin).
Defined.

Lemma stored_items_are_well_formed_witness :
  reachable hex24_isValid hex24_new 0 world2
  /\ In (voted 1709287200003 item1) (cps world2)
  /\ JsString.startsWith (CP.imageUrl (voted 1709287200003 item1))
       (JsString.lit "data:image/") = true.
Proof.
  assert (Hin : In (voted 1709287200003 item1) (cps world2)).
  { vm_compute. left. reflexivity. }
  split; [exact reachable_world2|]. split; [exact Hin|].
  destruct (stored_items_are_well_formed hex24_isValid hex24_new 0 world2 _
              reachable_world2 Hin) as (_ & _ & _ & H).
  exact H.
Defined.

Lemma failed_connection_is_retried_witness :
  db world_down = None
  /\ outage world_down
     = Some {| message := JsString.lit "connect ECONNREFUSED";
               multer_code := None |}
  /\ db (snd (sample_app (GET_cps QUndefined) world_down)) = None
  /\ status_of (sample_app GET_health
                  (store_back (snd (sample_app (GET_cps QUndefined)
                                      world_down)))) = Some 200.
Proof.
  split; [reflexivity|]. split; [reflexivity|].
  destruct (failed_connection_is_retried hex24_isValid hex24_new 0
              (GET_cps QUndefined) world_down _ eq_refl eq_refl)
    as (H1 & _ & _ & _ & H2 & _).
  split; assumption.
Defined.

Lemma create_when_store_is_down_witness :
  JsString.trim (JsString.lit "A") <> []
  /\ outage world_down
     = Some {| message := JsString.lit "connect ECONNREFUSED";
               multer_code := None |}
  /\ fst (create_route (Some (JsString.lit "A")) None (Some jpeg_1)
            world_down)
     = Return (res_json 500
                 (ErrorJson (JsString.lit "服务器内部错误，创建失败")))
  /\ cps (snd (create_route (Some (JsString.lit "A")) None (Some jpeg_1)
                 world_down)) = cps world_down.
Proof.
  assert (Hn : JsString.trim (JsString.lit "A") <> [])
    by (vm_compute; discriminate).
  assert (Hm : JsString.startsWith (mimetype jpeg_1) (JsString.lit "image/")
               = true) by (vm_compute; reflexivity).
  assert (Hs : (N.of_nat (List.length (buffer jpeg_1)) <= fileSize)%N)
    by (vm_compute; discriminate).
  split; [exact Hn|]. split; [reflexivity|].
  destruct (create_when_store_is_down (JsString.lit "A") None jpeg_1
              world_down _ Hn Hm Hs eq_refl) as (H1 & _ & H2 & _).
  split; [|exact H2]. apply H1. vm_compute. reflexivity.
Defined.

Lemma item_ids_stay_unique_witness :
  NoDup (item_ids world1)
  /\ ~ In (oids world1 (oid_count world1)) (item_ids world1)
  /\ NoDup (item_ids
              (snd (sample_app
                      (POST_cps (Some (JsString.lit "B")) None (Some jpeg_1))
                      world1))).
Proof.
  assert (H1 : NoDup (item_ids world1)).
  { vm_compute. constructor; [intros []|constructor]. }
  assert (H2 : ~ In (oids world1 (oid_count world1)) (item_ids world1)).
  { vm_compute. intros [H|[]]. discriminate. }
  split; [exact H1|]. split; [exact H2|].
  exact (item_ids_stay_unique hex24_isValid hex24_new 0 _ world1 H1 H2).
Defined.

Lemma create_then_list_witness :
  JsString.trim (JsString.lit " A ") <> [] /\ outage world0 = None
  /\ exists message id cp items,
       fst (create_route (Some (JsString.lit " A ")) None (Some jpeg_1) world0)
       = Return (res_json 201 (CreatedJson true message id cp))
       /\ fst (list_handler QUndefined
                 (snd (create_route (Some (JsString.lit " A ")) None
                         (Some jpeg_1) world0)))
          = Return (res_json 200 (CpsJson items))
       /\ In cp items.
Proof.
  assert (Hn : JsString.trim (JsString.lit " A ") <> [])
    by (vm_compute; discriminate).
  assert (Hm : JsString.startsWith (mimetype jpeg_1) (JsString.lit "image/")
               = true) by (vm_compute; reflexivity).
  assert (Hs : (N.of_nat (List.length (buffer jpeg_1)) <= fileSize)%N)
    by (vm_compute; discriminate).
  assert (Ho : outage world0 = None) by reflexivity.
  split; [exact Hn|]. split; [exact Ho|].
  destruct (create_then_list (JsString.lit " A ") None jpeg_1 QUndefined
              world0 Hn Hm Hs Ho)
    as (message & id & cp & items & H1 & H2 & _ & H3).
  exists message, id, cp, items. repeat split; assumption.
Defined.

Lemma vote_twice_same_day_witness :
  hex24_isValid sample_id = true /\ outage world1 = None
  /\ status_of (vote_handler hex24_isValid hex24_new 0 sample_id
                  (Some sample_ip) None world1) = Some 200
  /\ fst (vote_handler hex24_isValid hex24_new 0 sample_id (Some sample_ip)
            None world2) = Return DuplicateVoteError.
Proof.
  assert (Hv : hex24_isValid sample_id = true) by (vm_compute; reflexivity).
  assert (Ho : outage world1 = None) by (vm_compute; reflexivity).
  assert (H200 : status_of (vote_handler hex24_isValid hex24_new 0 sample_id
                              (Some sample_ip) None world1) = Some 200)
    by (vm_compute; reflexivity).
  repeat (split; [assumption|]).
  refine (vote_twice_same_day hex24_isValid hex24_new 0 sample_id
            (Some sample_ip) None world1 Hv Ho H200 _).
  vm_compute. reflexivity.
Defined.
